(** * PNG character-card codec of CardMaker: a shallow embedding

    Sources modelled:
    - [src/src/lib/crc32.ts]  : [makeCrc32Table], [crc32];
    - [src/unnamed/part_003]  : [readUint32BE], [writeUint32BE], base64 and
      UTF-8 helpers, [parseTextChunkKeyword], [extractCardFromPng],
      [buildTextChunk], [embedCardIntoPng].

    Conventions.
    - A [Uint8Array] is a [list Z] of values in [0, 256).
    - JavaScript numbers handled by the 32-bit bitwise operators are kept as
      their unsigned 32-bit pattern in [Z]; [x >>> 0] is [u32 x].  The signed
      intermediate values produced by [^], [|] and [<<] have the same bit
      pattern, and every later use goes through [&], [>>>] or [^], so the
      unsigned view is exact.
    - A JavaScript string is the list of its Unicode scalar values ([list Z]);
      the claims are about well-formed (UTF-8 encodable) strings.
    - The while loops walk [pngBytes] from an offset; the model walks the
      suffix [pngBytes.slice(offset)], with a fuel argument bounded by the
      buffer length (every iteration consumes at least 12 bytes). *)

From Stdlib Require Import ZArith List Bool Lia.
Import ListNotations.
Open Scope Z_scope.

(* ------------------------------------------------------------------ *)
(** ** Results of throwing code *)

Inductive result (A E : Type) : Type :=
| Ok (a : A)
| Err (e : E).
Arguments Ok {A E} a.
Arguments Err {A E} e.

Definition rmap {A B E} (f : A -> B) (r : result A E) : result B E :=
  match r with Ok a => Ok (f a) | Err e => Err e end.

(* ------------------------------------------------------------------ *)
(** ** Bytes and 32-bit words *)

(** [x >>> 0] *)
Definition u32 (x : Z) : Z := Z.land x (Z.ones 32).

(** [slice(a, b)] on a list, with JavaScript's clamping. *)
Definition slice (a b : Z) (l : list Z) : list Z :=
  firstn (Z.to_nat b - Z.to_nat a) (skipn (Z.to_nat a) l).

(** [buf[i]] read by a bitwise operator: [undefined] becomes 0. *)
Definition at_ (buf : list Z) (i : nat) : Z := nth i buf 0.

(** [readUint32BE(buf, offset)] at offset 0 of [buf.slice(offset)],
    followed by the caller's [>>> 0]. *)
Definition readUint32BE (buf : list Z) : Z :=
  u32 (Z.lor (Z.lor (Z.lor (Z.shiftl (at_ buf 0) 24) (Z.shiftl (at_ buf 1) 16))
                    (Z.shiftl (at_ buf 2) 8)) (at_ buf 3)).

Definition writeUint32BE (value : Z) : list Z :=
  [ Z.land (Z.shiftr (u32 value) 24) 255;
    Z.land (Z.shiftr (u32 value) 16) 255;
    Z.land (Z.shiftr (u32 value) 8) 255;
    Z.land (u32 value) 255 ].

Definition concatBytes (parts : list (list Z)) : list Z := concat parts.

(* ------------------------------------------------------------------ *)
(** ** CRC-32 ([src/src/lib/crc32.ts]) *)

Module Crc.

(** One round of the inner loop of [makeCrc32Table]:
    [crc = crc & 1 ? (0xedb88320 ^ (crc >>> 1)) : (crc >>> 1)]. *)
Definition crc_round (crc : Z) : Z :=
  if Z.odd crc then Z.lxor 3988292384 (Z.shiftr crc 1) else Z.shiftr crc 1.

Definition eight_rounds (crc : Z) : Z := Nat.iter 8 crc_round crc.

(** [makeCrc32Table]: entry [i] is [(eight rounds from i) >>> 0]. *)
Definition makeCrc32Table : list Z :=
  map (fun i => u32 (eight_rounds (Z.of_nat i))) (seq 0 256).

Definition CRC32_TABLE : list Z := Eval vm_compute in makeCrc32Table.

(** [crc = CRC32_TABLE[(crc ^ b) & 0xff] ^ (crc >>> 8)] *)
Definition crc_byte (crc b : Z) : Z :=
  Z.lxor (nth (Z.to_nat (Z.land (Z.lxor crc b) 255)) CRC32_TABLE 0) (Z.shiftr crc 8).

Definition crc32 (bytes : list Z) : Z :=
  u32 (Z.lxor (fold_left crc_byte bytes 4294967295) 4294967295).

(** The reference CRC-32 as the spec describes it (ISO/IEC 15948 Annex D):
    reflected polynomial 0xEDB88320, register initialised to 0xFFFFFFFF,
    each byte xored into the register then eight shift/xor rounds, final
    complement; the result read as an unsigned 32-bit integer. *)
Definition crc32_reference (bytes : list Z) : Z :=
  u32 (Z.lxor
         (fold_left (fun reg b => Nat.iter 8 crc_round (Z.lxor reg b)) bytes 4294967295)
         4294967295).

End Crc.

(* ------------------------------------------------------------------ *)
(** ** Text encodings used by the codec *)

Module Enc.

(** [TextEncoder.encode]: UTF-8 of a string of scalar values; a lone
    surrogate is first replaced by U+FFFD (USVString conversion). *)
Definition utf8_encode_cp (c0 : Z) : list Z :=
  let c := if (55296 <=? c0) && (c0 <=? 57343) then 65533 else c0 in
  if c <? 128 then [c]
  else if c <? 2048 then
    [Z.lor 192 (Z.shiftr c 6); Z.lor 128 (Z.land c 63)]
  else if c <? 65536 then
    [Z.lor 224 (Z.shiftr c 12); Z.lor 128 (Z.land (Z.shiftr c 6) 63);
     Z.lor 128 (Z.land c 63)]
  else
    [Z.lor 240 (Z.shiftr c 18); Z.lor 128 (Z.land (Z.shiftr c 12) 63);
     Z.lor 128 (Z.land (Z.shiftr c 6) 63); Z.lor 128 (Z.land c 63)].

Definition utf8_encode (s : list Z) : list Z := flat_map utf8_encode_cp s.

(** [encodeAscii = s => new TextEncoder().encode(s)] *)
Definition encodeAscii (s : list Z) : list Z := utf8_encode s.

Definition in_range (lo hi b : Z) : bool := (lo <=? b) && (b <=? hi).

(** The WHATWG UTF-8 decoder as a token stream: [Some c] is a decoded
    scalar value, [None] a decoding error.  After an error inside a
    multi-byte sequence the offending byte is processed again; a truncated
    sequence at the end yields one error. *)
Fixpoint utf8_tokens (bs : list Z) : list (option Z) :=
  match bs with
  | [] => []
  | b :: t =>
    if b <? 128 then Some b :: utf8_tokens t
    else if in_range 194 223 b then
      match t with
      | c1 :: t1 =>
        if in_range 128 191 c1
        then Some (Z.lor (Z.shiftl (Z.land b 31) 6) (Z.land c1 63)) :: utf8_tokens t1
        else None :: utf8_tokens t
      | [] => [None]
      end
    else if in_range 224 239 b then
      let lo := if b =? 224 then 160 else 128 in
      let hi := if b =? 237 then 159 else 191 in
      match t with
      | c1 :: t1 =>
        if in_range lo hi c1 then
          match t1 with
          | c2 :: t2 =>
            if in_range 128 191 c2
            then Some (Z.lor (Z.lor (Z.shiftl (Z.land b 15) 12)
                                    (Z.shiftl (Z.land c1 63) 6)) (Z.land c2 63))
                 :: utf8_tokens t2
            else None :: utf8_tokens t1
          | [] => [None]
          end
        else None :: utf8_tokens t
      | [] => [None]
      end
    else if in_range 240 244 b then
      let lo := if b =? 240 then 144 else 128 in
      let hi := if b =? 244 then 143 else 191 in
      match t with
      | c1 :: t1 =>
        if in_range lo hi c1 then
          match t1 with
          | c2 :: t2 =>
            if in_range 128 191 c2 then
              match t2 with
              | c3 :: t3 =>
                if in_range 128 191 c3
                then Some (Z.lor (Z.lor (Z.lor (Z.shiftl (Z.land b 7) 18)
                                               (Z.shiftl (Z.land c1 63) 12))
                                        (Z.shiftl (Z.land c2 63) 6)) (Z.land c3 63))
                     :: utf8_tokens t3
                else None :: utf8_tokens t2
              | [] => [None]
              end
            else None :: utf8_tokens t1
          | [] => [None]
          end
        else None :: utf8_tokens t
      | [] => [None]
      end
    else None :: utf8_tokens t
  end.

(** [TextDecoder] drops a leading U+FEFF unless [ignoreBOM] is set. *)
Definition strip_bom (s : list Z) : list Z :=
  match s with
  | c :: r => if c =? 65279 then r else s
  | [] => []
  end.

(** [new TextDecoder("utf-8").decode(bytes)]: errors become U+FFFD. *)
Definition utf8_decode (bs : list Z) : list Z :=
  strip_bom (map (fun t => match t with Some c => c | None => 65533 end) (utf8_tokens bs)).

Fixpoint all_tokens (ts : list (option Z)) : option (list Z) :=
  match ts with
  | [] => Some []
  | Some c :: r => match all_tokens r with Some cs => Some (c :: cs) | None => None end
  | None :: _ => None
  end.

(** [new TextDecoder("utf-8", { fatal: true }).decode(bytes)]; [None] is the
    thrown [TypeError]. *)
Definition utf8_decode_fatal (bs : list Z) : option (list Z) :=
  match all_tokens (utf8_tokens bs) with
  | Some cs => Some (strip_bom cs)
  | None => None
  end.

(** [new TextDecoder("ascii")] is the windows-1252 decoder. *)
Definition win1252_high : list Z :=
  [8364; 129; 8218; 402; 8222; 8230; 8224; 8225; 710; 8240; 352; 8249; 338; 141; 381; 143;
   144; 8216; 8217; 8220; 8221; 8226; 8211; 8212; 732; 8482; 353; 8250; 339; 157; 382; 376].

Definition win1252_cp (b : Z) : Z :=
  if in_range 128 159 b then nth (Z.to_nat (b - 128)) win1252_high 0 else b.

Definition decode_ascii (bs : list Z) : list Z := map win1252_cp bs.

(** Base64 alphabet. *)
Definition b64_char (n : Z) : Z :=
  if n <? 26 then 65 + n
  else if n <? 52 then 97 + (n - 26)
  else if n <? 62 then 48 + (n - 52)
  else if n =? 62 then 43 else 47.

Definition b64_value (c : Z) : option Z :=
  if in_range 65 90 c then Some (c - 65)
  else if in_range 97 122 c then Some (c - 97 + 26)
  else if in_range 48 57 c then Some (c - 48 + 52)
  else if c =? 43 then Some 62
  else if c =? 47 then Some 63
  else None.

(** [btoa] on a binary string (every code point below 256, so it never
    throws): forgiving-base64 encode with padding. *)
Fixpoint btoa (bs : list Z) : list Z :=
  match bs with
  | a :: b :: c :: r =>
    [b64_char (Z.shiftr a 2);
     b64_char (Z.lor (Z.shiftl (Z.land a 3) 4) (Z.shiftr b 4));
     b64_char (Z.lor (Z.shiftl (Z.land b 15) 2) (Z.shiftr c 6));
     b64_char (Z.land c 63)] ++ btoa r
  | [a; b] =>
    [b64_char (Z.shiftr a 2);
     b64_char (Z.lor (Z.shiftl (Z.land a 3) 4) (Z.shiftr b 4));
     b64_char (Z.shiftl (Z.land b 15) 2); 61]
  | [a] => [b64_char (Z.shiftr a 2); b64_char (Z.shiftl (Z.land a 3) 4); 61; 61]
  | [] => []
  end.

Fixpoint sextets_to_bytes (xs : list Z) : list Z :=
  match xs with
  | a :: b :: c :: d :: r =>
    [Z.lor (Z.shiftl a 2) (Z.shiftr b 4);
     Z.lor (Z.shiftl (Z.land b 15) 4) (Z.shiftr c 2);
     Z.lor (Z.shiftl (Z.land c 3) 6) d] ++ sextets_to_bytes r
  | [a; b; c] =>
    [Z.lor (Z.shiftl a 2) (Z.shiftr b 4); Z.lor (Z.shiftl (Z.land b 15) 4) (Z.shiftr c 2)]
  | [a; b] => [Z.lor (Z.shiftl a 2) (Z.shiftr b 4)]
  | _ => []
  end.

Fixpoint all_values (s : list Z) : option (list Z) :=
  match s with
  | [] => Some []
  | c :: r =>
    match b64_value c, all_values r with
    | Some v, Some vs => Some (v :: vs)
    | _, _ => None
    end
  end.

Definition is_ascii_whitespace (c : Z) : bool :=
  (c =? 9) || (c =? 10) || (c =? 12) || (c =? 13) || (c =? 32).

(** Removal of the final one or two [=] when the length is a multiple of 4. *)
Definition strip_padding (s : list Z) : list Z :=
  if Nat.eqb (Nat.modulo (length s) 4) 0 then
    match rev s with
    | 61 :: 61 :: r => rev r
    | 61 :: r => rev r
    | _ => s
    end
  else s.

(** [atob]: forgiving-base64 decode; [None] is the thrown
    [InvalidCharacterError]. *)
Definition atob (s : list Z) : option (list Z) :=
  let s1 := strip_padding (filter (fun c => negb (is_ascii_whitespace c)) s) in
  if Nat.eqb (Nat.modulo (length s1) 4) 1 then None
  else match all_values s1 with
       | Some vs => Some (sextets_to_bytes vs)
       | None => None
       end.

(** [bytesToBinaryString]: [String.fromCharCode] of every byte, by slices
    of 0x2000; the concatenation maps each byte to the code point equal to it. *)
Definition bytesToBinaryString (bytes : list Z) : list Z := bytes.

Definition base64EncodeUtf8 (s : list Z) : list Z :=
  btoa (bytesToBinaryString (utf8_encode s)).

(** [base64DecodeUtf8]: [None] when [atob] or the fatal decoder throws. *)
Definition base64DecodeUtf8 (b64 : list Z) : option (list Z) :=
  match atob b64 with
  | Some binary => utf8_decode_fatal binary
  | None => None
  end.

End Enc.

(* ------------------------------------------------------------------ *)
(** ** PNG chunk codec ([src/unnamed/part_003]) *)

Module Png.
Import Crc Enc.

Definition PNG_SIGNATURE : list Z := [137; 80; 78; 71; 13; 10; 26; 10].

(** String literals of the source, as code points. *)
Definition str_tEXt : list Z := [116; 69; 88; 116].
Definition str_IEND : list Z := [73; 69; 78; 68].
Definition str_chara : list Z := [99; 104; 97; 114; 97].
Definition str_ccv3 : list Z := [99; 99; 118; 51].

Fixpoint list_eqb (a b : list Z) : bool :=
  match a, b with
  | [], [] => true
  | x :: a', y :: b' => (x =? y) && list_eqb a' b'
  | _, _ => false
  end.

(** [for (let i = 0; i < 8; i++) if (pngBytes[i] !== PNG_SIGNATURE[i]) ...]:
    [true] when no index mismatches ([undefined] never matches). *)
Definition signature_matches (pngBytes : list Z) : bool :=
  forallb (fun i => match nth_error pngBytes i with
                    | Some b => b =? nth i PNG_SIGNATURE 0
                    | None => false
                    end) (seq 0 8).

Inductive CardKeyword := Chara | Ccv3.

Definition keyword_string (k : CardKeyword) : list Z :=
  match k with Chara => str_chara | Ccv3 => str_ccv3 end.

(** [keyword === "chara" || keyword === "ccv3"] *)
Definition carrier_keyword (kw : list Z) : option CardKeyword :=
  if list_eqb kw str_chara then Some Chara
  else if list_eqb kw str_ccv3 then Some Ccv3
  else None.

Record ExtractedPngCard := { keyword : CardKeyword; jsonText : list Z }.

(** [Uint8Array.prototype.indexOf(0)]; [None] is [-1]. *)
Fixpoint index_of (x : Z) (l : list Z) : option nat :=
  match l with
  | [] => None
  | y :: r => if y =? x then Some 0%nat
              else match index_of x r with Some n => Some (S n) | None => None end
  end.

(** [parseTextChunkKeyword]: [null] when [nullIndex <= 0]. *)
Definition parseTextChunkKeyword (chunkData : list Z) : option (list Z * list Z) :=
  match index_of 0 chunkData with
  | None => None
  | Some 0%nat => None
  | Some nullIndex =>
    Some (utf8_decode (firstn nullIndex chunkData), skipn (S nullIndex) chunkData)
  end.

Inductive ExtractError := DecodeError.

(** One iteration of the [while] loop of [extractCardFromPng], on
    [rest = pngBytes.slice(offset)]; [continue_at] runs the next iteration
    on [pngBytes.slice(next)]. *)
Definition extract_step
  (continue_at : list Z -> result (option ExtractedPngCard) ExtractError)
  (rest : list Z) : result (option ExtractedPngCard) ExtractError :=
  if Z.of_nat (length rest) <? 12 then Ok None else
  let len := readUint32BE rest in
  let type := decode_ascii (slice 4 8 rest) in
  let dataStart := 8 in
  let dataEnd := dataStart + len in
  let next := dataEnd + 4 in
  if Z.of_nat (length rest) <? next then Ok None else
  let found :=
    if list_eqb type str_tEXt then
      match parseTextChunkKeyword (slice dataStart dataEnd rest) with
      | Some (kw, textBytes) =>
        match carrier_keyword kw with
        | Some k => Some (k, textBytes)
        | None => None
        end
      | None => None
      end
    else None in
  match found with
  | Some (k, textBytes) =>
    match base64DecodeUtf8 (decode_ascii textBytes) with
    | Some jsonText => Ok (Some {| keyword := k; jsonText := jsonText |})
    | None => Err DecodeError
    end
  | None =>
    if list_eqb type str_IEND then Ok None
    else continue_at (skipn (Z.to_nat next) rest)
  end.

(** The loop itself; every iteration that continues consumes at least 12
    bytes, so [length pngBytes] iterations always suffice. *)
Fixpoint extract_loop (fuel : nat) (rest : list Z)
  : result (option ExtractedPngCard) ExtractError :=
  match fuel with
  | O => Ok None
  | S fuel' => extract_step (extract_loop fuel') rest
  end.

Definition extractCardFromPng (pngBytes : list Z)
  : result (option ExtractedPngCard) ExtractError :=
  if Z.of_nat (length pngBytes) <? 8 then Ok None
  else if negb (signature_matches pngBytes) then Ok None
  else extract_loop (length pngBytes) (skipn 8 pngBytes).

Definition buildTextChunk (k : CardKeyword) (base64Payload : list Z) : list Z :=
  let typeBytes := encodeAscii str_tEXt in
  let data := concatBytes [encodeAscii (keyword_string k); [0]; encodeAscii base64Payload] in
  let lengthBytes := writeUint32BE (Z.of_nat (length data)) in
  let crcBytes := writeUint32BE (crc32 (concatBytes [typeBytes; data])) in
  concatBytes [lengthBytes; typeBytes; data; crcBytes].

(** The two [throw new Error(...)] of [embedCardIntoPng]:
    ["不是有效 PNG 文件"] (not a valid PNG file) and
    ["PNG chunk 损坏"] (PNG chunk corrupted). *)
Inductive EmbedError := NotAPng | TruncatedPng.

Record EmbedOpts := { writeCcv3 : option bool; writeChara : option bool }.

(** One iteration of the [while] loop of [embedCardIntoPng], on
    [rest = pngBytes.slice(offset)]: the parts it pushes to [outParts], in
    order, followed by those of the next iterations ([continue_at]). *)
Definition embed_step
  (continue_at : list Z -> result (list (list Z)) EmbedError)
  (toInsert : list (list Z)) (rest : list Z) : result (list (list Z)) EmbedError :=
  if Z.of_nat (length rest) <? 12 then Ok [] else
  let len := readUint32BE rest in
  let typeBytes := slice 4 8 rest in
  let type := decode_ascii typeBytes in
  let dataStart := 8 in
  let dataEnd := dataStart + len in
  let chunkEnd := dataEnd + 4 in
  if Z.of_nat (length rest) <? chunkEnd then Err TruncatedPng else
  let chunkData := slice dataStart dataEnd rest in
  let skip :=
    if list_eqb type str_tEXt then
      match parseTextChunkKeyword chunkData with
      | Some (kw, _) => list_eqb kw str_chara || list_eqb kw str_ccv3
      | None => false
      end
    else false in
  let inserted := if list_eqb type str_IEND then toInsert else [] in
  let copied :=
    if skip then []
    else [concatBytes [writeUint32BE (Z.of_nat (length chunkData)); typeBytes; chunkData;
                       writeUint32BE (crc32 (concatBytes [typeBytes; chunkData]))]] in
  if list_eqb type str_IEND then Ok (inserted ++ copied)
  else match continue_at (skipn (Z.to_nat chunkEnd) rest) with
       | Ok parts => Ok (inserted ++ copied ++ parts)
       | Err e => Err e
       end.

Fixpoint embed_loop (fuel : nat) (toInsert : list (list Z)) (rest : list Z)
  : result (list (list Z)) EmbedError :=
  match fuel with
  | O => Ok []
  | S fuel' => embed_step (embed_loop fuel' toInsert) toInsert rest
  end.

(** [opts?.writeCcv3 ?? true] and [opts?.writeChara ?? true] *)
Definition opt_writeCcv3 (opts : option EmbedOpts) : bool :=
  match opts with
  | Some o => match writeCcv3 o with Some b => b | None => true end
  | None => true
  end.

Definition opt_writeChara (opts : option EmbedOpts) : bool :=
  match opts with
  | Some o => match writeChara o with Some b => b | None => true end
  | None => true
  end.

Definition insertion_set (cardJsonText : list Z) (opts : option EmbedOpts) : list (list Z) :=
  let b64 := base64EncodeUtf8 cardJsonText in
  (if opt_writeChara opts then [buildTextChunk Chara b64] else [])
  ++ (if opt_writeCcv3 opts then [buildTextChunk Ccv3 b64] else []).

Definition embedCardIntoPng (pngBytes : list Z) (cardJsonText : list Z)
  (opts : option EmbedOpts) : result (list Z) EmbedError :=
  if negb (signature_matches pngBytes) then Err NotAPng else
  let toInsert := insertion_set cardJsonText opts in
  match embed_loop (length pngBytes) toInsert (skipn 8 pngBytes) with
  | Ok parts => Ok (concatBytes (PNG_SIGNATURE :: parts))
  | Err e => Err e
  end.

End Png.

(* ------------------------------------------------------------------ *)
(** ** Chunk-level view of a buffer, for stating properties *)

Module Chunks.
Import Crc Enc Png.

(** A chunk as it sits in an input file: type tag, payload, and whatever
    four CRC bytes the file carries (not necessarily correct). *)
Record RawChunk := { ck_type : list Z; ck_data : list Z; ck_crc : list Z }.

(** Well-formed: 4-byte tag, 4-byte CRC field, length representable. *)
Definition well_formed (c : RawChunk) : Prop :=
  length (ck_type c) = 4%nat /\ length (ck_crc c) = 4%nat
  /\ Z.of_nat (length (ck_data c)) < 2 ^ 32.

(** The bytes of a chunk in a file: big-endian length, tag, payload, CRC. *)
Definition raw_bytes (c : RawChunk) : list Z :=
  writeUint32BE (Z.of_nat (length (ck_data c))) ++ ck_type c ++ ck_data c ++ ck_crc c.

Definition chunks_bytes (cs : list RawChunk) : list Z := flat_map raw_bytes cs.

(** The CRC field a chunk should carry. *)
Definition crc_field (c : RawChunk) : list Z :=
  writeUint32BE (crc32 (ck_type c ++ ck_data c)).

Definition crc_correct (c : RawChunk) : Prop := ck_crc c = crc_field c.

(** The bytes [embedCardIntoPng] writes for a chunk it copies. *)
Definition copied_bytes (c : RawChunk) : list Z :=
  raw_bytes {| ck_type := ck_type c; ck_data := ck_data c; ck_crc := crc_field c |}.

Definition is_iend (c : RawChunk) : bool := list_eqb (decode_ascii (ck_type c)) str_IEND.

(** The carrier a chunk holds, as [extractCardFromPng] recognises it:
    a [tEXt] chunk whose keyword decodes to "chara" or "ccv3". *)
Definition chunk_carrier (c : RawChunk) : option (CardKeyword * list Z) :=
  if list_eqb (decode_ascii (ck_type c)) str_tEXt then
    match parseTextChunkKeyword (ck_data c) with
    | Some (kw, textBytes) =>
      match carrier_keyword kw with
      | Some k => Some (k, textBytes)
      | None => None
      end
    | None => None
    end
  else None.

(** Chunks that [embedCardIntoPng] copies (it drops carriers). *)
Definition kept (c : RawChunk) : bool :=
  match chunk_carrier c with Some _ => false | None => true end.

(** What [extractCardFromPng] returns for a carrier's text bytes. *)
Definition decode_carrier (k : CardKeyword) (textBytes : list Z)
  : result (option ExtractedPngCard) ExtractError :=
  match base64DecodeUtf8 (decode_ascii textBytes) with
  | Some jsonText => Ok (Some {| keyword := k; jsonText := jsonText |})
  | None => Err DecodeError
  end.

(** The whole loop of each operation, from a given suffix. *)
Definition extract_walk (rest : list Z) := extract_loop (length rest) rest.
Definition embed_walk (toInsert : list (list Z)) (rest : list Z) :=
  embed_loop (length rest) toInsert rest.

(** Sample inputs: the 1x1 grayscale PNG (signature, IHDR, IDAT, IEND,
    all CRCs correct). *)
Definition IHDR_1x1 : RawChunk :=
  {| ck_type := [73; 72; 68; 82];
     ck_data := [0; 0; 0; 1; 0; 0; 0; 1; 8; 0; 0; 0; 0];
     ck_crc := [58; 126; 155; 85] |}.
Definition IDAT_1x1 : RawChunk :=
  {| ck_type := [73; 68; 65; 84];
     ck_data := [120; 156; 99; 96; 0; 0; 0; 2; 0; 1];
     ck_crc := [72; 175; 164; 113] |}.
Definition IEND_chunk : RawChunk :=
  {| ck_type := str_IEND; ck_data := []; ck_crc := [174; 66; 96; 130] |}.

Definition minimal_png : list Z :=
  PNG_SIGNATURE ++ chunks_bytes [IHDR_1x1; IDAT_1x1; IEND_chunk].

(** [a] occurs as a contiguous run of bytes in [b]. *)
Fixpoint prefixb (a b : list Z) : bool :=
  match a, b with
  | [], _ => true
  | x :: a', y :: b' => (x =? y) && prefixb a' b'
  | _ :: _, [] => false
  end.

Fixpoint infixb (a b : list Z) : bool :=
  prefixb a b || match b with [] => false | _ :: b' => infixb a b' end.

(** A [tEXt] chunk with a correct CRC. *)
Definition text_chunk (kw text : list Z) : RawChunk :=
  {| ck_type := str_tEXt; ck_data := kw ++ 0 :: text;
     ck_crc := writeUint32BE (crc32 (str_tEXt ++ kw ++ 0 :: text)) |}.

(** [{"a":1}] *)
Definition sample_json : list Z := [123; 34; 97; 34; 58; 49; 125].

Definition sample_out : list Z :=
  Eval vm_compute in
  match embedCardIntoPng minimal_png sample_json None with Ok o => o | Err _ => [] end.

Definition chara_only : option EmbedOpts :=
  Some {| writeCcv3 := Some false; writeChara := Some true |}.

(** An IEND chunk whose CRC field is wrong. *)
Definition IEND_bad_crc : RawChunk :=
  {| ck_type := str_IEND; ck_data := []; ck_crc := [0; 0; 0; 0] |}.

End Chunks.

(* ------------------------------------------------------------------ *)
(** ** Bracket-balanced extraction ([src/src/lib/safeJson.ts]) *)

Module SafeJson.
Import Png.

(** The [for] loop of [extractFirstJsonObject] / [extractFirstJsonArray]
    from index [i], on [text.slice(i)]: [depth] is incremented on the
    opening character, then decremented on the closing one, and the loop
    returns the first index at which it is 0; [None] when the text ends
    first.  (The text is a list of code points; the two delimiters are
    single UTF-16 units, so the returned slice is the same.) *)
Fixpoint scan_depth (open close : Z) (depth : Z) (i : nat) (t : list Z) : option nat :=
  match t with
  | [] => None
  | ch :: r =>
    let depth1 := if ch =? open then depth + 1 else depth in
    let depth2 := if ch =? close then depth1 - 1 else depth1 in
    if depth2 =? 0 then Some i else scan_depth open close depth2 (S i) r
  end.

(** The common body of the two functions: [start = text.indexOf(open)],
    [null] when negative, else the loop from [start] with depth 0, and
    [text.slice(start, i + 1)] at its return. *)
Definition extract_first_delimited (open close : Z) (text : list Z) : option (list Z) :=
  match index_of open text with
  | None => None
  | Some start =>
    match scan_depth open close 0 start (skipn start text) with
    | Some i => Some (slice (Z.of_nat start) (Z.of_nat i + 1) text)
    | None => None
    end
  end.

(** ["{"] is 123, ["}"] is 125. *)
Definition extractFirstJsonObject (text : list Z) : option (list Z) :=
  extract_first_delimited 123 125 text.

(** ["["] is 91, ["]"] is 93. *)
Definition extractFirstJsonArray (text : list Z) : option (list Z) :=
  extract_first_delimited 91 93 text.

(** For stating properties: openers minus closers in a string. *)
Fixpoint nesting (open close : Z) (l : list Z) : Z :=
  match l with
  | [] => 0
  | ch :: r => (if ch =? open then 1 else 0) - (if ch =? close then 1 else 0)
               + nesting open close r
  end.

End SafeJson.

(* ------------------------------------------------------------------ *)
(** ** Views used by the properties of the codec *)

Module Views.
Import Crc Enc Png Chunks.

(** A Unicode scalar value: what a well-formed JavaScript string holds. *)
Definition scalar_value (c : Z) : Prop :=
  (0 <= c < 55296) \/ (57344 <= c < 1114112).

(** The chunk [embedCardIntoPng] writes for a copied chunk. *)
Definition refresh (c : RawChunk) : RawChunk :=
  {| ck_type := ck_type c; ck_data := ck_data c; ck_crc := crc_field c |}.

(** The 6-bit groups [btoa] encodes, and the padding it appends. *)
Fixpoint sextets (bs : list Z) : list Z :=
  match bs with
  | a :: b :: c :: r =>
    [Z.shiftr a 2; Z.lor (Z.shiftl (Z.land a 3) 4) (Z.shiftr b 4);
     Z.lor (Z.shiftl (Z.land b 15) 2) (Z.shiftr c 6); Z.land c 63] ++ sextets r
  | [a; b] =>
    [Z.shiftr a 2; Z.lor (Z.shiftl (Z.land a 3) 4) (Z.shiftr b 4);
     Z.shiftl (Z.land b 15) 2]
  | [a] => [Z.shiftr a 2; Z.shiftl (Z.land a 3) 4]
  | [] => []
  end.

Fixpoint b64_padding (bs : list Z) : list Z :=
  match bs with
  | _ :: _ :: _ :: r => b64_padding r
  | [_; _] => [61]
  | [_] => [61; 61]
  | [] => []
  end.

(** The tEXt chunk [buildTextChunk] writes. *)
Definition built_chunk (k : CardKeyword) (b64 : list Z) : RawChunk :=
  let data := keyword_string k ++ 0 :: encodeAscii b64 in
  {| ck_type := str_tEXt; ck_data := data;
     ck_crc := writeUint32BE (crc32 (str_tEXt ++ data)) |}.

Definition inserted_chunks (s : list Z) (opts : option EmbedOpts) : list RawChunk :=
  let b64 := base64EncodeUtf8 s in
  (if opt_writeChara opts then [built_chunk Chara b64] else [])
  ++ (if opt_writeCcv3 opts then [built_chunk Ccv3 b64] else []).
(** A byte value. *)
Definition byte (b : Z) : Prop := 0 <= b < 256.


End Views.

(* ================================================================== *)
(** * Proofs *)

(** Bitwise identities are decided bit by bit. *)
Ltac bitwise :=
  apply Z.bits_inj'; intros ?i ?Hi;
  rewrite ?Z.lxor_spec, ?Z.land_spec, ?Z.lor_spec.

Module CrcFacts.
Import Crc.

Lemma crc_round_lxor (a b : Z) :
  crc_round (Z.lxor a b) = Z.lxor (crc_round a) (crc_round b).
Proof.
  unfold crc_round. rewrite Z.shiftr_lxor.
  rewrite <- !Z.bit0_odd, Z.lxor_spec.
  destruct (Z.testbit a 0), (Z.testbit b 0); cbn [xorb].
  all: bitwise.
  all: destruct (Z.testbit 3988292384 i), (Z.testbit (Z.shiftr a 1) i),
      (Z.testbit (Z.shiftr b 1) i); reflexivity.
Qed.

Lemma iter_round_lxor (n : nat) (a b : Z) :
  Nat.iter n crc_round (Z.lxor a b)
  = Z.lxor (Nat.iter n crc_round a) (Nat.iter n crc_round b).
Proof.
  induction n as [|n IH]; [reflexivity|].
  rewrite !Nat.iter_succ, IH. apply crc_round_lxor.
Qed.

Lemma crc_round_shiftl (y : Z) (k : nat) :
  crc_round (Z.shiftl y (Z.of_nat (S k))) = Z.shiftl y (Z.of_nat k).
Proof.
  unfold crc_round. rewrite <- Z.bit0_odd, Z.shiftl_spec_low by lia.
  rewrite Z.shiftr_shiftl_l by lia. f_equal. lia.
Qed.

Lemma iter_round_shiftl (k : nat) (y : Z) :
  Nat.iter k crc_round (Z.shiftl y (Z.of_nat k)) = y.
Proof.
  induction k as [|k IH]; [apply Z.shiftl_0_r|].
  rewrite Nat.iter_succ_r, crc_round_shiftl. exact IH.
Qed.

Lemma split_low_byte (x : Z) :
  x = Z.lxor (Z.land x 255) (Z.shiftl (Z.shiftr x 8) 8).
Proof.
  bitwise. change 255 with (Z.ones 8).
  rewrite Z.testbit_ones by lia.
  destruct (Z.ltb_spec i 8).
  - rewrite Z.shiftl_spec_low by lia.
    replace (0 <=? i) with true by (symmetry; apply Z.leb_le; lia).
    destruct (Z.testbit x i); reflexivity.
  - rewrite Z.shiftl_spec_high, Z.shiftr_spec by lia.
    replace (i - 8 + 8) with i by lia.
    rewrite andb_false_r. destruct (Z.testbit x i); reflexivity.
Qed.

Lemma eight_rounds_split (x : Z) :
  eight_rounds x = Z.lxor (eight_rounds (Z.land x 255)) (Z.shiftr x 8).
Proof.
  unfold eight_rounds. rewrite (split_low_byte x) at 1.
  rewrite iter_round_lxor. f_equal. apply (iter_round_shiftl 8).
Qed.

Lemma table_entries :
  forallb (fun n => nth n CRC32_TABLE 0 =? eight_rounds (Z.of_nat n)) (seq 0 256)
  = true.
Proof. vm_compute. reflexivity. Qed.

Lemma table_nth (k : Z) :
  0 <= k < 256 -> nth (Z.to_nat k) CRC32_TABLE 0 = eight_rounds k.
Proof.
  intros Hk. pose proof table_entries as H.
  rewrite forallb_forall in H.
  specialize (H (Z.to_nat k)). rewrite in_seq in H.
  rewrite Z2Nat.id in H by lia. apply Z.eqb_eq, H. lia.
Qed.

Lemma crc_byte_reference (c b : Z) :
  0 <= b < 256 -> crc_byte c b = Nat.iter 8 crc_round (Z.lxor c b).
Proof.
  intros Hb. unfold crc_byte. fold (eight_rounds (Z.lxor c b)).
  rewrite (eight_rounds_split (Z.lxor c b)).
  rewrite table_nth.
  2:{ change 255 with (Z.ones 8). rewrite Z.land_ones by lia.
      apply Z.mod_pos_bound. lia. }
  f_equal. rewrite Z.shiftr_lxor.
  replace (Z.shiftr b 8) with 0.
  - rewrite Z.lxor_0_r. reflexivity.
  - rewrite Z.shiftr_div_pow2 by lia. symmetry. apply Z.div_small. lia.
Qed.

Lemma fold_crc_reference (bytes : list Z) (acc : Z) :
  Forall (fun b => 0 <= b < 256) bytes ->
  fold_left crc_byte bytes acc
  = fold_left (fun reg b => Nat.iter 8 crc_round (Z.lxor reg b)) bytes acc.
Proof.
  revert acc. induction bytes as [|b bs IH]; intros acc Hf; [reflexivity|].
  inversion Hf; subst. cbn [fold_left]. rewrite crc_byte_reference by assumption.
  apply IH. assumption.
Qed.

End CrcFacts.

Module ByteFacts.

Ltac split_ranges :=
  repeat match goal with
         | |- context [?a <=? ?b] => destruct (Z.leb_spec a b)
         | |- context [?a <? ?b] => destruct (Z.ltb_spec a b)
         end.

Lemma testbit_byte_at (u k i : Z) :
  0 <= k -> 0 <= i ->
  Z.testbit (Z.shiftl (Z.land (Z.shiftr u k) 255) k) i
  = (k <=? i) && (i <? k + 8) && Z.testbit u i.
Proof.
  intros Hk Hi. destruct (Z.ltb_spec i k).
  - rewrite Z.shiftl_spec_low by lia.
    destruct (Z.leb_spec k i); [lia|reflexivity].
  - rewrite Z.shiftl_spec_high by lia. rewrite Z.land_spec, Z.shiftr_spec by lia.
    change 255 with (Z.ones 8). rewrite Z.testbit_ones by lia.
    replace (i - k + k) with i by lia.
    destruct (Z.leb_spec k i); [|lia].
    destruct (Z.leb_spec 0 (i - k)); [|lia].
    destruct (Z.ltb_spec (i - k) 8), (Z.ltb_spec i (k + 8)); try lia;
      destruct (Z.testbit u i); reflexivity.
Qed.

Lemma u32_testbit (x i : Z) : 0 <= i -> Z.testbit (u32 x) i = (i <? 32) && Z.testbit x i.
Proof.
  intros Hi. unfold u32. rewrite Z.land_spec, Z.testbit_ones by lia.
  destruct (Z.leb_spec 0 i); [|lia]. apply andb_comm.
Qed.

Lemma readUint32BE_write (n : Z) (r : list Z) :
  readUint32BE (writeUint32BE n ++ r) = u32 n.
Proof.
  unfold readUint32BE, writeUint32BE, at_. cbn [app nth].
  set (u := u32 n).
  replace (Z.land u 255) with (Z.shiftl (Z.land (Z.shiftr u 0) 255) 0)
    by (rewrite Z.shiftl_0_r, Z.shiftr_0_r; reflexivity).
  apply Z.bits_inj'; intros i Hi.
  rewrite u32_testbit by assumption. rewrite !Z.lor_spec.
  rewrite !testbit_byte_at by lia.
  subst u. rewrite u32_testbit by assumption.
  split_ranges; try lia; cbn [andb orb]; try reflexivity;
    destruct (Z.testbit n i); reflexivity.
Qed.

Lemma u32_small (x : Z) : 0 <= x < 2 ^ 32 -> u32 x = x.
Proof.
  intros H. unfold u32. rewrite Z.land_ones by lia. apply Z.mod_small. exact H.
Qed.

Lemma u32_nonneg (x : Z) : 0 <= u32 x.
Proof. unfold u32. apply Z.land_nonneg. right. unfold Z.ones. cbn. lia. Qed.

Lemma readUint32BE_nonneg (buf : list Z) : 0 <= readUint32BE buf.
Proof. apply u32_nonneg. Qed.

Lemma writeUint32BE_length (n : Z) : length (writeUint32BE n) = 4%nat.
Proof. reflexivity. Qed.

End ByteFacts.

Module WalkFacts.
Import Crc Enc Png Chunks ByteFacts.

Lemma skipn_prefix (l1 l2 : list Z) (n : nat) :
  length l1 = n -> skipn n (l1 ++ l2) = l2.
Proof.
  intros <-. induction l1 as [|x l1 IH]; [reflexivity|]. exact IH.
Qed.

Lemma firstn_prefix (l1 l2 : list Z) (n : nat) :
  length l1 = n -> firstn n (l1 ++ l2) = l1.
Proof.
  intros <-. induction l1 as [|x l1 IH]; [reflexivity|]. cbn. f_equal. exact IH.
Qed.

Lemma list_eqb_spec (a b : list Z) : list_eqb a b = true <-> a = b.
Proof.
  revert b. induction a as [|x a IH]; intros [|y b]; cbn;
    try (split; congruence).
  rewrite andb_true_iff, Z.eqb_eq, IH. split.
  - intros [-> ->]. reflexivity.
  - intros H. injection H. auto.
Qed.

Section OneChunk.
Variable c : RawChunk.
Variable r : list Z.
Hypothesis Hwf : well_formed c.

Let L := Z.of_nat (length (ck_data c)).

Lemma raw_bytes_app :
  raw_bytes c ++ r
  = writeUint32BE L ++ ck_type c ++ ck_data c ++ ck_crc c ++ r.
Proof. unfold raw_bytes. rewrite <- !app_assoc. reflexivity. Qed.

Lemma raw_length :
  length (raw_bytes c ++ r) = (12 + length (ck_data c) + length r)%nat.
Proof.
  destruct Hwf as [Ht [Hc _]].
  rewrite raw_bytes_app, !length_app, writeUint32BE_length, Ht, Hc. lia.
Qed.

Lemma raw_not_short : (Z.of_nat (length (raw_bytes c ++ r)) <? 12) = false.
Proof. rewrite raw_length. apply Z.ltb_ge. lia. Qed.

Lemma raw_read : readUint32BE (raw_bytes c ++ r) = L.
Proof.
  destruct Hwf as [_ [_ Hl]].
  rewrite raw_bytes_app, readUint32BE_write. apply u32_small. subst L. lia.
Qed.

Lemma raw_not_overrun : (Z.of_nat (length (raw_bytes c ++ r)) <? 8 + L + 4) = false.
Proof. rewrite raw_length. apply Z.ltb_ge. subst L. lia. Qed.

Lemma raw_type : slice 4 8 (raw_bytes c ++ r) = ck_type c.
Proof.
  destruct Hwf as [Ht _].
  rewrite raw_bytes_app. unfold slice. cbn [Z.to_nat Pos.to_nat Pos.iter_op Nat.add Nat.sub].
  rewrite skipn_prefix by apply writeUint32BE_length.
  change (Pos.to_nat 8 - Pos.to_nat 4)%nat with 4%nat.
  apply firstn_prefix. exact Ht.
Qed.

Lemma raw_data : slice 8 (8 + L) (raw_bytes c ++ r) = ck_data c.
Proof.
  destruct Hwf as [Ht _].
  rewrite raw_bytes_app. unfold slice.
  replace (Z.to_nat (8 + L) - Z.to_nat 8)%nat with (length (ck_data c)) by (subst L; lia).
  rewrite app_assoc, skipn_prefix.
  - apply firstn_prefix. reflexivity.
  - rewrite length_app, writeUint32BE_length, Ht. reflexivity.
Qed.

Lemma raw_next : skipn (Z.to_nat (8 + L + 4)) (raw_bytes c ++ r) = r.
Proof.
  destruct Hwf as [Ht [Hc _]].
  unfold raw_bytes. apply skipn_prefix.
  rewrite !length_app, writeUint32BE_length, Ht, Hc. subst L. lia.
Qed.

End OneChunk.
Lemma skip_test (kw : list Z) :
  (list_eqb kw str_chara || list_eqb kw str_ccv3)
  = match carrier_keyword kw with Some _ => true | None => false end.
Proof.
  unfold carrier_keyword. destruct (list_eqb kw str_chara), (list_eqb kw str_ccv3); reflexivity.
Qed.

Lemma iend_not_text (c : RawChunk) :
  is_iend c = true -> list_eqb (decode_ascii (ck_type c)) str_tEXt = false.
Proof.
  unfold is_iend. intros H. apply list_eqb_spec in H. rewrite H. reflexivity.
Qed.

Lemma iend_kept (c : RawChunk) : is_iend c = true -> kept c = true.
Proof.
  intros H. unfold kept, chunk_carrier. rewrite iend_not_text by exact H. reflexivity.
Qed.

Lemma extract_step_chunk (k : list Z -> result (option ExtractedPngCard) ExtractError)
  (c : RawChunk) (r : list Z) :
  well_formed c ->
  extract_step k (raw_bytes c ++ r)
  = match chunk_carrier c with
    | Some (kw, textBytes) => decode_carrier kw textBytes
    | None => if is_iend c then Ok None else k r
    end.
Proof.
  intros Hwf. unfold extract_step. cbv zeta.
  rewrite (raw_not_short c r Hwf), (raw_read c r Hwf), (raw_not_overrun c r Hwf),
    (raw_type c r Hwf), (raw_data c r Hwf), (raw_next c r Hwf).
  unfold chunk_carrier, is_iend, decode_carrier.
  destruct (list_eqb (decode_ascii (ck_type c)) str_tEXt); [|reflexivity].
  destruct (parseTextChunkKeyword (ck_data c)) as [[kw tb]|]; [|reflexivity].
  destruct (carrier_keyword kw); reflexivity.
Qed.

Lemma copied_bytes_eq (c : RawChunk) :
  concatBytes [writeUint32BE (Z.of_nat (length (ck_data c))); ck_type c; ck_data c;
               writeUint32BE (crc32 (concatBytes [ck_type c; ck_data c]))]
  = copied_bytes c.
Proof.
  unfold concatBytes, copied_bytes, raw_bytes, crc_field. cbn [concat ck_type ck_data ck_crc].
  rewrite !app_nil_r. reflexivity.
Qed.

Lemma embed_step_chunk (k : list Z -> result (list (list Z)) EmbedError)
  (toInsert : list (list Z)) (c : RawChunk) (r : list Z) :
  well_formed c ->
  embed_step k toInsert (raw_bytes c ++ r)
  = if is_iend c then Ok (toInsert ++ [copied_bytes c])
    else rmap (fun parts => (if kept c then [copied_bytes c] else []) ++ parts) (k r).
Proof.
  intros Hwf. unfold embed_step. cbv zeta.
  rewrite (raw_not_short c r Hwf), (raw_read c r Hwf), (raw_not_overrun c r Hwf),
    (raw_type c r Hwf), (raw_data c r Hwf), (raw_next c r Hwf).
  rewrite copied_bytes_eq.
  destruct (is_iend c) eqn:Hi.
  - assert (Hk := iend_kept c Hi). unfold kept, chunk_carrier in Hk.
    rewrite (iend_not_text c Hi). unfold is_iend in Hi. rewrite Hi. reflexivity.
  - unfold is_iend in Hi. rewrite Hi. unfold kept, chunk_carrier.
    destruct (list_eqb (decode_ascii (ck_type c)) str_tEXt);
      [|destruct (k r); reflexivity].
    destruct (parseTextChunkKeyword (ck_data c)) as [[kw tb]|];
      [|destruct (k r); reflexivity].
    rewrite skip_test. destruct (carrier_keyword kw); destruct (k r); reflexivity.
Qed.

(** Fuel: any bound at least the length of the suffix gives the same loop. *)

Lemma next_shorter (rest : list Z) :
  (Z.of_nat (length rest) <? 12) = false ->
  (length (skipn (Z.to_nat (8 + readUint32BE rest + 4)) rest) < length rest)%nat.
Proof.
  intros H. apply Z.ltb_ge in H. pose proof (readUint32BE_nonneg rest).
  rewrite length_skipn. lia.
Qed.

Lemma extract_step_ext (k1 k2 : list Z -> result (option ExtractedPngCard) ExtractError)
  (rest : list Z) :
  (forall r', (length r' < length rest)%nat -> k1 r' = k2 r') ->
  extract_step k1 rest = extract_step k2 rest.
Proof.
  intros Hk. unfold extract_step. cbv zeta.
  destruct (Z.of_nat (length rest) <? 12) eqn:Hs; [reflexivity|].
  destruct (Z.of_nat (length rest) <? 8 + readUint32BE rest + 4); [reflexivity|].
  match goal with |- match ?F with _ => _ end = _ => destruct F as [[kw tb]|] end;
    [reflexivity|].
  destruct (list_eqb _ str_IEND); [reflexivity|].
  apply Hk, next_shorter, Hs.
Qed.

Lemma embed_step_ext (k1 k2 : list Z -> result (list (list Z)) EmbedError)
  (toInsert : list (list Z)) (rest : list Z) :
  (forall r', (length r' < length rest)%nat -> k1 r' = k2 r') ->
  embed_step k1 toInsert rest = embed_step k2 toInsert rest.
Proof.
  intros Hk. unfold embed_step. cbv zeta.
  destruct (Z.of_nat (length rest) <? 12) eqn:Hs; [reflexivity|].
  destruct (Z.of_nat (length rest) <? 8 + readUint32BE rest + 4); [reflexivity|].
  destruct (list_eqb _ str_IEND); [reflexivity|].
  rewrite (Hk _ (next_shorter rest Hs)). reflexivity.
Qed.

Lemma extract_loop_fuel (f1 f2 : nat) (rest : list Z) :
  (length rest <= f1)%nat -> (length rest <= f2)%nat ->
  extract_loop f1 rest = extract_loop f2 rest.
Proof.
  revert f2 rest. induction f1 as [|f1 IH]; intros f2 rest H1 H2.
  - destruct rest; [|cbn in H1; lia]. destruct f2; reflexivity.
  - destruct f2 as [|f2].
    + destruct rest; [reflexivity|cbn in H2; lia].
    + cbn [extract_loop]. apply extract_step_ext. intros r' Hr. apply IH; lia.
Qed.

Lemma embed_loop_fuel (f1 f2 : nat) (toInsert : list (list Z)) (rest : list Z) :
  (length rest <= f1)%nat -> (length rest <= f2)%nat ->
  embed_loop f1 toInsert rest = embed_loop f2 toInsert rest.
Proof.
  revert f2 rest. induction f1 as [|f1 IH]; intros f2 rest H1 H2.
  - destruct rest; [|cbn in H1; lia]. destruct f2; reflexivity.
  - destruct f2 as [|f2].
    + destruct rest; [reflexivity|cbn in H2; lia].
    + cbn [embed_loop]. apply embed_step_ext. intros r' Hr. apply IH; lia.
Qed.

(** Walking from a suffix. *)

Lemma extract_walk_chunk (c : RawChunk) (r : list Z) :
  well_formed c ->
  extract_walk (raw_bytes c ++ r)
  = match chunk_carrier c with
    | Some (kw, textBytes) => decode_carrier kw textBytes
    | None => if is_iend c then Ok None else extract_walk r
    end.
Proof.
  intros Hwf. unfold extract_walk.
  pose proof (raw_length c r Hwf) as Hl.
  destruct (length (raw_bytes c ++ r)) as [|n] eqn:E; [lia|].
  cbn [extract_loop]. rewrite extract_step_chunk by exact Hwf.
  rewrite (extract_loop_fuel n (length r)) by lia. reflexivity.
Qed.

Lemma embed_walk_chunk (toInsert : list (list Z)) (c : RawChunk) (r : list Z) :
  well_formed c ->
  embed_walk toInsert (raw_bytes c ++ r)
  = if is_iend c then Ok (toInsert ++ [copied_bytes c])
    else rmap (fun parts => (if kept c then [copied_bytes c] else []) ++ parts)
              (embed_walk toInsert r).
Proof.
  intros Hwf. unfold embed_walk.
  pose proof (raw_length c r Hwf) as Hl.
  destruct (length (raw_bytes c ++ r)) as [|n] eqn:E; [lia|].
  cbn [embed_loop]. rewrite embed_step_chunk by exact Hwf.
  rewrite (embed_loop_fuel n (length r)) by lia. reflexivity.
Qed.

Lemma extract_walk_prefix (pre : list RawChunk) (r : list Z) :
  Forall well_formed pre ->
  Forall (fun c => chunk_carrier c = None /\ is_iend c = false) pre ->
  extract_walk (chunks_bytes pre ++ r) = extract_walk r.
Proof.
  induction pre as [|c pre IH]; intros Hwf Hplain; [reflexivity|].
  inversion Hwf; inversion Hplain as [|? ? [Hc Hi]]; subst.
  cbn [chunks_bytes flat_map]. rewrite <- app_assoc.
  rewrite extract_walk_chunk, Hc, Hi by assumption. apply IH; assumption.
Qed.

Lemma embed_walk_prefix (toInsert : list (list Z)) (pre : list RawChunk) (r : list Z) :
  Forall well_formed pre ->
  Forall (fun c => is_iend c = false) pre ->
  embed_walk toInsert (chunks_bytes pre ++ r)
  = rmap (fun parts => map copied_bytes (filter kept pre) ++ parts) (embed_walk toInsert r).
Proof.
  induction pre as [|c pre IH]; intros Hwf Hni.
  - cbn [chunks_bytes flat_map app map filter].
    destruct (embed_walk toInsert r); reflexivity.
  - inversion Hwf; inversion Hni; subst.
    cbn [chunks_bytes flat_map]. rewrite <- app_assoc.
    rewrite embed_walk_chunk by assumption.
    match goal with H : is_iend c = false |- _ => rewrite H end.
    fold (chunks_bytes pre). rewrite IH by assumption.
    cbn [filter]. destruct (embed_walk toInsert r); [|reflexivity].
    cbn. destruct (kept c); reflexivity.
Qed.

Lemma extract_after_signature (rest : list Z) :
  extractCardFromPng (PNG_SIGNATURE ++ rest) = extract_walk rest.
Proof.
  unfold extractCardFromPng. rewrite length_app.
  replace (Z.of_nat (length PNG_SIGNATURE + length rest) <? 8) with false
    by (symmetry; apply Z.ltb_ge; cbn [length PNG_SIGNATURE]; lia).
  change (signature_matches (PNG_SIGNATURE ++ rest)) with true. cbn [negb].
  change (skipn 8 (PNG_SIGNATURE ++ rest)) with rest.
  apply extract_loop_fuel; cbn [length PNG_SIGNATURE app]; lia.
Qed.

Lemma embed_after_signature (rest : list Z) (s : list Z) (opts : option EmbedOpts) :
  embedCardIntoPng (PNG_SIGNATURE ++ rest) s opts
  = rmap (fun parts => PNG_SIGNATURE ++ concat parts)
         (embed_walk (insertion_set s opts) rest).
Proof.
  unfold embedCardIntoPng.
  change (signature_matches (PNG_SIGNATURE ++ rest)) with true. cbn [negb].
  change (skipn 8 (PNG_SIGNATURE ++ rest)) with rest.
  unfold embed_walk. rewrite (embed_loop_fuel _ (length rest))
    by (rewrite ?length_app; cbn [length PNG_SIGNATURE]; lia).
  destruct (embed_loop (length rest) _ rest); reflexivity.
Qed.

Lemma embed_walk_short (toInsert : list (list Z)) (tail : list Z) :
  (length tail < 12)%nat -> embed_walk toInsert tail = Ok [].
Proof.
  intros H. unfold embed_walk. destruct (length tail) as [|n] eqn:E; [reflexivity|].
  cbn [embed_loop]. unfold embed_step.
  replace (Z.of_nat (length tail) <? 12) with true by (symmetry; apply Z.ltb_lt; lia).
  reflexivity.
Qed.

Lemma embed_walk_overrun (toInsert : list (list Z)) (tail : list Z) :
  (12 <= length tail)%nat ->
  Z.of_nat (length tail) < 8 + readUint32BE tail + 4 ->
  embed_walk toInsert tail = Err TruncatedPng.
Proof.
  intros H1 H2. unfold embed_walk. destruct (length tail) as [|n] eqn:E; [lia|].
  cbn [embed_loop]. unfold embed_step. cbv zeta. rewrite E.
  replace (Z.of_nat (S n) <? 12) with false by (symmetry; apply Z.ltb_ge; lia).
  replace (Z.of_nat (S n) <? 8 + readUint32BE tail + 4) with true
    by (symmetry; apply Z.ltb_lt; lia).
  reflexivity.
Qed.

Lemma embed_no_iend (cs : list RawChunk) (tail s : list Z) (opts : option EmbedOpts) :
  Forall well_formed cs -> Forall (fun c => is_iend c = false) cs ->
  (length tail < 12)%nat ->
  embedCardIntoPng (PNG_SIGNATURE ++ chunks_bytes cs ++ tail) s opts
  = Ok (PNG_SIGNATURE ++ concat (map copied_bytes (filter kept cs))).
Proof.
  intros Hwf Hni Ht. rewrite embed_after_signature, embed_walk_prefix by assumption.
  rewrite embed_walk_short by exact Ht. cbn. rewrite app_nil_r. reflexivity.
Qed.

Lemma copied_bytes_correct (c : RawChunk) : crc_correct c -> copied_bytes c = raw_bytes c.
Proof. unfold crc_correct, copied_bytes. intros H. rewrite <- H. destruct c; reflexivity. Qed.

Lemma extract_at_first_carrier (pre : list RawChunk) (c : RawChunk) (rest : list Z)
  (k : CardKeyword) (textBytes : list Z) :
  Forall well_formed pre ->
  Forall (fun c => chunk_carrier c = None /\ is_iend c = false) pre ->
  well_formed c -> chunk_carrier c = Some (k, textBytes) ->
  extractCardFromPng (PNG_SIGNATURE ++ chunks_bytes pre ++ raw_bytes c ++ rest)
  = decode_carrier k textBytes.
Proof.
  intros Hwf Hplain Hc Hcar.
  rewrite extract_after_signature, extract_walk_prefix, extract_walk_chunk, Hcar
    by assumption.
  reflexivity.
Qed.

Lemma signature_matches_prefix (p : list Z) :
  signature_matches p = true -> firstn 8 p = PNG_SIGNATURE.
Proof.
  intros H.
  destruct p as [|b0 [|b1 [|b2 [|b3 [|b4 [|b5 [|b6 [|b7 p]]]]]]]];
    unfold signature_matches in H; cbn [forallb seq nth_error nth PNG_SIGNATURE andb] in H;
    try discriminate H.
  all: repeat rewrite andb_true_iff in H.
  all: try (repeat match type of H with _ /\ _ => destruct H as [_ H] end; discriminate H).
  destruct H as [H0 [H1 [H2 [H3 [H4 [H5 [H6 [H7 _]]]]]]]].
  apply Z.eqb_eq in H0, H1, H2, H3, H4, H5, H6, H7. subst. reflexivity.
Qed.

(** Every part [embedCardIntoPng] pushes is a whole chunk with the length
    and CRC fields it computes itself. *)
Definition fresh_part (part : list Z) : Prop :=
  exists c, part = raw_bytes c /\ crc_correct c /\ length (ck_type c) = 4%nat.

Lemma fresh_serialised (t d : list Z) :
  length t = 4%nat ->
  fresh_part (concatBytes [writeUint32BE (Z.of_nat (length d)); t; d;
                           writeUint32BE (crc32 (concatBytes [t; d]))]).
Proof.
  intros Ht. pose proof (copied_bytes_eq {| ck_type := t; ck_data := d; ck_crc := [] |}) as E.
  cbn [ck_type ck_data] in E. rewrite E.
  eexists. split; [reflexivity|]. split; [reflexivity|exact Ht].
Qed.

Lemma insertion_set_fresh (s : list Z) (opts : option EmbedOpts) :
  Forall fresh_part (insertion_set s opts).
Proof.
  unfold insertion_set, buildTextChunk.
  apply Forall_app; split;
    [destruct (opt_writeChara opts) | destruct (opt_writeCcv3 opts)];
    repeat constructor; apply fresh_serialised; reflexivity.
Qed.

Lemma ok_inj {A E : Type} (a b : A) : @Ok A E a = Ok b -> a = b.
Proof. intros H. injection H. auto. Qed.

Lemma embed_loop_fresh (f : nat) (toInsert : list (list Z)) (rest : list Z)
  (parts : list (list Z)) :
  Forall fresh_part toInsert ->
  embed_loop f toInsert rest = Ok parts -> Forall fresh_part parts.
Proof.
  revert rest parts. induction f as [|f IH]; intros rest parts Hins H.
  - injection H as <-. constructor.
  - cbn [embed_loop] in H. unfold embed_step in H. cbv zeta in H.
    destruct (Z.of_nat (length rest) <? 12) eqn:Hs; [injection H as <-; constructor|].
    destruct (Z.of_nat (length rest) <? 8 + readUint32BE rest + 4); [discriminate|].
    assert (Hcopy : Forall fresh_part
      (if (if list_eqb (decode_ascii (slice 4 8 rest)) str_tEXt then
             match parseTextChunkKeyword (slice 8 (8 + readUint32BE rest) rest) with
             | Some (kw, _) => list_eqb kw str_chara || list_eqb kw str_ccv3
             | None => false
             end
           else false) then []
       else [concatBytes
               [writeUint32BE (Z.of_nat (length (slice 8 (8 + readUint32BE rest) rest)));
                slice 4 8 rest; slice 8 (8 + readUint32BE rest) rest;
                writeUint32BE (crc32 (concatBytes [slice 4 8 rest;
                                                   slice 8 (8 + readUint32BE rest) rest]))]])).
    { destruct (if list_eqb _ str_tEXt then _ else false); repeat constructor.
      apply fresh_serialised. apply Z.ltb_ge in Hs.
      unfold slice. rewrite length_firstn, length_skipn. cbn. lia. }
    destruct (list_eqb (decode_ascii (slice 4 8 rest)) str_IEND).
    + apply ok_inj in H. rewrite <- H. apply Forall_app. split; assumption.
    + destruct (embed_loop f toInsert _) as [ps|] eqn:E; [|discriminate].
      apply ok_inj in H. rewrite <- H. apply Forall_app. split; [constructor|].
      apply Forall_app. split; [assumption|]. eapply IH; eassumption.
Qed.

Lemma fresh_parts_chunks (parts : list (list Z)) :
  Forall fresh_part parts ->
  exists cs, concat parts = chunks_bytes cs
             /\ Forall (fun c => crc_correct c /\ length (ck_type c) = 4%nat) cs.
Proof.
  induction parts as [|p ps IH]; intros H.
  - exists []. split; [reflexivity|constructor].
  - inversion H as [|? ? Hp Hps]; subst.
    destruct Hp as [c [-> [Hc Ht]]].
    destruct (IH Hps) as [cs [E Hcs]].
    exists (c :: cs). split.
    + cbn. rewrite E. reflexivity.
    + constructor; [split|]; assumption.
Qed.

Lemma index_of_absent (l : list Z) : ~ In 0 l -> index_of 0 l = None.
Proof.
  induction l as [|x l IH]; intros H; [reflexivity|].
  cbn. destruct (Z.eqb_spec x 0) as [->|Hx]; [exfalso; apply H; left; reflexivity|].
  rewrite IH; [reflexivity|]. intros Hin. apply H. right. exact Hin.
Qed.

Lemma no_keyword_not_carrier (c : RawChunk) :
  ~ In 0 (ck_data c) \/ hd_error (ck_data c) = Some 0 ->
  parseTextChunkKeyword (ck_data c) = None.
Proof.
  unfold parseTextChunkKeyword. intros [H|H].
  - rewrite index_of_absent by exact H. reflexivity.
  - destruct (ck_data c) as [|x l]; [discriminate|].
    injection H as ->. reflexivity.
Qed.

End WalkFacts.

(* ================================================================== *)
(** * The claims *)

Module Claims.
Import Crc Enc Png Chunks WalkFacts CrcFacts.

(** ** C8 — the checksum *)

(** C8: [crc32] (table-driven, [src/src/lib/crc32.ts]) equals the reflected
    CRC-32 reference (polynomial 0xEDB88320, initial 0xFFFFFFFF, final
    complement) on every byte sequence, and the checksum of the ASCII bytes
    of "IEND" is 0xAE426082. *)
Theorem crc32_is_reference_crc (bytes : list Z)
  (Hbytes : Forall (fun b => 0 <= b < 256) bytes) :
  crc32 bytes = crc32_reference bytes
  /\ crc32 (encodeAscii str_IEND) = 0xAE426082.
Proof.
  split.
  - unfold crc32, crc32_reference. rewrite fold_crc_reference by exact Hbytes.
    reflexivity.
  - vm_compute. reflexivity.
Qed.

Lemma crc32_is_reference_crc_witness :
  Forall (fun b => 0 <= b < 256) str_IEND
  /\ crc32 str_IEND = crc32_reference str_IEND
  /\ crc32 (encodeAscii str_IEND) = 0xAE426082.
Proof.
  assert (H : Forall (fun b => 0 <= b < 256) str_IEND)
    by (repeat constructor; lia).
  split; [exact H|]. apply (crc32_is_reference_crc str_IEND H).
Defined.

(** ** C7 — input that is not a PNG *)

(** C7: on a buffer that does not start with the 8-byte PNG signature
    (shorter buffers included), [extractCardFromPng] returns "not found"
    ([null]) without throwing, while [embedCardIntoPng] throws the
    not-a-PNG error. *)
Theorem non_png_extract_lenient_embed_strict (p : list Z)
  (Hp : firstn 8 p <> PNG_SIGNATURE) :
  extractCardFromPng p = Ok None
  /\ forall s opts, embedCardIntoPng p s opts = Err NotAPng.
Proof.
  assert (Hs : signature_matches p = false).
  { destruct (signature_matches p) eqn:E; [|reflexivity].
    exfalso. apply Hp, signature_matches_prefix, E. }
  split.
  - unfold extractCardFromPng. rewrite Hs.
    destruct (Z.of_nat (length p) <? 8); reflexivity.
  - intros s opts. unfold embedCardIntoPng. rewrite Hs. reflexivity.
Qed.

(** A JPEG start-of-image marker. *)
Lemma non_png_extract_lenient_embed_strict_witness :
  firstn 8 [255; 216; 255; 224] <> PNG_SIGNATURE
  /\ extractCardFromPng [255; 216; 255; 224] = Ok None
  /\ (forall s opts, embedCardIntoPng [255; 216; 255; 224] s opts = Err NotAPng).
Proof.
  assert (H : firstn 8 [255; 216; 255; 224] <> PNG_SIGNATURE) by discriminate.
  split; [exact H|]. apply (non_png_extract_lenient_embed_strict _ H).
Defined.

(** ** C5 — CRC fields of the output *)

(** C5: whenever [embedCardIntoPng] returns a buffer, it is the signature
    followed by whole chunks (the inserted tEXt chunks and every copied
    chunk), each with a 4-byte tag, a length field equal to its payload
    length (built into [raw_bytes]) and a CRC field equal to [crc32] of its
    tag followed by its payload, whatever the input's CRC fields were. *)
Theorem embed_output_crcs_recomputed (p s : list Z) (opts : option EmbedOpts)
  (out : list Z) (Hout : embedCardIntoPng p s opts = Ok out) :
  exists cs, out = PNG_SIGNATURE ++ chunks_bytes cs
             /\ Forall (fun c => crc_correct c /\ length (ck_type c) = 4%nat) cs.
Proof.
  unfold embedCardIntoPng in Hout.
  destruct (negb (signature_matches p)); [discriminate|].
  destruct (embed_loop _ _ _) as [parts|] eqn:E; [|discriminate].
  apply ok_inj in Hout. subst out.
  pose proof (embed_loop_fresh _ _ _ _ (insertion_set_fresh s opts) E) as Hf.
  destruct (fresh_parts_chunks parts Hf) as [cs [Ec Hcs]].
  exists cs. split; [|exact Hcs].
  unfold concatBytes. cbn [concat]. rewrite Ec. reflexivity.
Qed.

Lemma embed_output_crcs_recomputed_witness :
  embedCardIntoPng minimal_png sample_json None = Ok sample_out
  /\ exists cs, sample_out = PNG_SIGNATURE ++ chunks_bytes cs
                /\ Forall (fun c => crc_correct c /\ length (ck_type c) = 4%nat) cs.
Proof.
  assert (H : embedCardIntoPng minimal_png sample_json None = Ok sample_out)
    by (vm_compute; reflexivity).
  split; [exact H|]. exact (embed_output_crcs_recomputed _ _ _ _ H).
Defined.

(** ** C1 — a signature but no IEND chunk *)

(** C1 (as stated, refuted): a buffer made of the signature and an IHDR
    chunk has no IEND chunk, yet [embedCardIntoPng] returns a buffer (the
    input itself, its CRC being correct) instead of failing. *)
Lemma embed_without_iend_returns_buffer :
  embedCardIntoPng (PNG_SIGNATURE ++ raw_bytes IHDR_1x1) sample_json None
  = Ok (PNG_SIGNATURE ++ raw_bytes IHDR_1x1).
Proof. vm_compute. reflexivity. Qed.

(** C1 (amended): for a buffer made of the signature, well-formed chunks
    none of which is IEND, and a tail, the insertion set is never written:
    if fewer than 12 bytes remain the walk stops silently and the output is
    the signature followed by the re-serialised non-carrier chunks only; if
    the tail declares a chunk longer than what remains, [embedCardIntoPng]
    throws the "chunk corrupted" error ([TruncatedPng]). *)
Theorem embed_without_iend_never_inserts (cs : list RawChunk) (tail s : list Z)
  (opts : option EmbedOpts)
  (Hwf : Forall well_formed cs) (Hni : Forall (fun c => is_iend c = false) cs) :
  ((length tail < 12)%nat ->
   embedCardIntoPng (PNG_SIGNATURE ++ chunks_bytes cs ++ tail) s opts
   = Ok (PNG_SIGNATURE ++ concat (map copied_bytes (filter kept cs))))
  /\ ((12 <= length tail)%nat -> Z.of_nat (length tail) < 8 + readUint32BE tail + 4 ->
      embedCardIntoPng (PNG_SIGNATURE ++ chunks_bytes cs ++ tail) s opts
      = Err TruncatedPng).
Proof.
  split.
  - intros Ht. apply embed_no_iend; assumption.
  - intros H1 H2. rewrite embed_after_signature, embed_walk_prefix by assumption.
    rewrite embed_walk_overrun by assumption. reflexivity.
Qed.

Lemma embed_without_iend_never_inserts_witness :
  embedCardIntoPng (PNG_SIGNATURE ++ chunks_bytes [IHDR_1x1; IDAT_1x1] ++ [0; 0]) sample_json None
  = Ok (PNG_SIGNATURE ++ concat (map copied_bytes (filter kept [IHDR_1x1; IDAT_1x1])))
  /\ embedCardIntoPng (PNG_SIGNATURE ++ chunks_bytes [IHDR_1x1; IDAT_1x1]
                       ++ [0; 0; 1; 0; 73; 69; 78; 68; 0; 0; 0; 0]) sample_json None
     = Err TruncatedPng.
Proof.
  assert (Hwf : Forall well_formed [IHDR_1x1; IDAT_1x1])
    by (repeat constructor; cbn; lia).
  assert (Hni : Forall (fun c => is_iend c = false) [IHDR_1x1; IDAT_1x1])
    by (repeat constructor).
  split.
  - apply (proj1 (embed_without_iend_never_inserts _ [0; 0] _ None Hwf Hni)). cbn. lia.
  - apply (proj2 (embed_without_iend_never_inserts _ _ _ None Hwf Hni));
      [cbn; lia | vm_compute; reflexivity].
Defined.

(** ** C2 — chunks copied through *)

(** C2 (as stated, refuted): an IEND chunk whose CRC field is wrong does not
    reappear byte for byte anywhere in the output of [embedCardIntoPng]:
    the copy carries a recomputed CRC. *)
Lemma embed_copy_not_byte_identical :
  match embedCardIntoPng (PNG_SIGNATURE ++ raw_bytes IEND_bad_crc) sample_json None with
  | Ok out => infixb (raw_bytes IEND_bad_crc) out = false
  | Err _ => False
  end.
Proof. vm_compute. reflexivity. Qed.

(** C2 (amended): for a buffer made of the signature, well-formed chunks
    [cs] none of which is IEND, then either an IEND chunk and any trailing
    bytes, or fewer than 12 trailing bytes, [embedCardIntoPng] outputs the
    signature, then every chunk of [cs] that is not a chara/ccv3 tEXt
    chunk, in the original order, with the same tag, payload and length
    field and a recomputed CRC field ([copied_bytes]), then (IEND case) the
    insertion set and the IEND chunk; bytes after IEND are not copied.  A
    copy is byte-identical to the input chunk whenever the input CRC was
    correct. *)
Theorem embed_copies_non_carriers (cs : list RawChunk) (s : list Z)
  (opts : option EmbedOpts)
  (Hwf : Forall well_formed cs) (Hni : Forall (fun c => is_iend c = false) cs) :
  (forall iend tail, well_formed iend -> is_iend iend = true ->
     embedCardIntoPng (PNG_SIGNATURE ++ chunks_bytes cs ++ raw_bytes iend ++ tail) s opts
     = Ok (PNG_SIGNATURE ++ concat (map copied_bytes (filter kept cs))
           ++ concat (insertion_set s opts) ++ copied_bytes iend))
  /\ (forall tail, (length tail < 12)%nat ->
      embedCardIntoPng (PNG_SIGNATURE ++ chunks_bytes cs ++ tail) s opts
      = Ok (PNG_SIGNATURE ++ concat (map copied_bytes (filter kept cs))))
  /\ (forall c, crc_correct c -> copied_bytes c = raw_bytes c).
Proof.
  split; [|split].
  - intros iend tail Hw Hi.
    rewrite embed_after_signature, embed_walk_prefix by assumption.
    rewrite embed_walk_chunk, Hi by assumption. cbn [rmap].
    rewrite !concat_app. cbn [concat]. rewrite app_nil_r. reflexivity.
  - intros tail Ht. apply embed_no_iend; assumption.
  - exact copied_bytes_correct.
Qed.

Lemma embed_copies_non_carriers_witness :
  embedCardIntoPng
    (PNG_SIGNATURE ++ chunks_bytes [IHDR_1x1; text_chunk str_chara [65; 65; 61; 61]; IDAT_1x1]
     ++ raw_bytes IEND_chunk ++ []) sample_json None
  = Ok (PNG_SIGNATURE
        ++ concat (map copied_bytes (filter kept [IHDR_1x1; text_chunk str_chara [65; 65; 61; 61]; IDAT_1x1]))
        ++ concat (insertion_set sample_json None) ++ copied_bytes IEND_chunk).
Proof.
  assert (Hwf : Forall well_formed [IHDR_1x1; text_chunk str_chara [65; 65; 61; 61]; IDAT_1x1])
    by (repeat constructor; cbn; lia).
  assert (Hni : Forall (fun c => is_iend c = false)
                  [IHDR_1x1; text_chunk str_chara [65; 65; 61; 61]; IDAT_1x1])
    by (repeat constructor).
  apply (proj1 (embed_copies_non_carriers _ sample_json None Hwf Hni));
    [repeat split; cbn; lia | reflexivity].
Defined.

(** ** C6 and C9 — the first carrier decides *)

(** C6: if the first chara/ccv3 tEXt chunk met by the walk has text bytes
    that [base64DecodeUtf8] rejects ([atob] or the fatal UTF-8 decoder
    throws), [extractCardFromPng] fails with the decode error, whatever
    follows (a later valid carrier included). *)
Theorem extract_corrupt_carrier_fails (pre : list RawChunk) (c : RawChunk)
  (rest : list Z) (k : CardKeyword) (textBytes : list Z)
  (Hpre : Forall well_formed pre)
  (Hplain : Forall (fun c => chunk_carrier c = None /\ is_iend c = false) pre)
  (Hwf : well_formed c) (Hcar : chunk_carrier c = Some (k, textBytes))
  (Hbad : base64DecodeUtf8 (decode_ascii textBytes) = None) :
  extractCardFromPng (PNG_SIGNATURE ++ chunks_bytes pre ++ raw_bytes c ++ rest)
  = Err DecodeError.
Proof.
  rewrite (extract_at_first_carrier pre c rest k textBytes) by assumption.
  unfold decode_carrier. rewrite Hbad. reflexivity.
Qed.

(** "/w==" decodes to the single byte 0xFF, which is not UTF-8; a valid
    carrier follows. *)
Lemma extract_corrupt_carrier_fails_witness :
  extractCardFromPng
    (PNG_SIGNATURE ++ chunks_bytes [IHDR_1x1]
     ++ raw_bytes (text_chunk str_chara [47; 119; 61; 61])
     ++ raw_bytes (text_chunk str_chara (base64EncodeUtf8 sample_json))
     ++ raw_bytes IEND_chunk)
  = Err DecodeError.
Proof.
  apply (extract_corrupt_carrier_fails [IHDR_1x1] _ _ Chara [47; 119; 61; 61]).
  - repeat constructor; cbn; lia.
  - repeat constructor.
  - repeat split; cbn; lia.
  - vm_compute. reflexivity.
  - vm_compute. reflexivity.
Defined.

(** C9: the result of [extractCardFromPng] is decided by the first
    chara/ccv3 tEXt chunk of the walk alone: it is that chunk's keyword
    and decoded text (or its decode error); any later carrier, whatever its
    keyword or payload, is never read. *)
Theorem extract_first_carrier_wins (pre : list RawChunk) (c : RawChunk)
  (rest : list Z) (k : CardKeyword) (textBytes : list Z)
  (Hpre : Forall well_formed pre)
  (Hplain : Forall (fun c => chunk_carrier c = None /\ is_iend c = false) pre)
  (Hwf : well_formed c) (Hcar : chunk_carrier c = Some (k, textBytes)) :
  extractCardFromPng (PNG_SIGNATURE ++ chunks_bytes pre ++ raw_bytes c ++ rest)
  = match base64DecodeUtf8 (decode_ascii textBytes) with
    | Some jsonText => Ok (Some {| keyword := k; jsonText := jsonText |})
    | None => Err DecodeError
    end.
Proof.
  exact (extract_at_first_carrier pre c rest k textBytes Hpre Hplain Hwf Hcar).
Qed.

(** Two chara chunks ("x" then {"a":1}) before IEND: the first wins. *)
Lemma extract_first_carrier_wins_witness :
  extractCardFromPng
    (PNG_SIGNATURE ++ chunks_bytes [IHDR_1x1]
     ++ raw_bytes (text_chunk str_chara (base64EncodeUtf8 [120]))
     ++ raw_bytes (text_chunk str_chara (base64EncodeUtf8 sample_json))
     ++ raw_bytes IEND_chunk)
  = Ok (Some {| keyword := Chara; jsonText := [120] |}).
Proof.
  rewrite (extract_first_carrier_wins [IHDR_1x1] _ _ Chara (base64EncodeUtf8 [120])).
  - vm_compute. reflexivity.
  - repeat constructor; cbn; lia.
  - repeat constructor.
  - repeat split; cbn; lia.
  - vm_compute. reflexivity.
Defined.

(** ** C10 — tEXt chunks without a keyword *)

(** C10: a well-formed tEXt chunk whose payload has no NUL byte, or starts
    with NUL (empty keyword), is no carrier: [extractCardFromPng] passes
    over it exactly as if it were absent (so it answers "not found" when no
    other chunk qualifies), and [embedCardIntoPng] copies it to the output
    between the copies of the chunks around it. *)
Theorem keywordless_text_chunk_passed_over (c : RawChunk)
  (Hwf : well_formed c) (Htype : ck_type c = str_tEXt)
  (Hbad : ~ In 0 (ck_data c) \/ hd_error (ck_data c) = Some 0) :
  (forall pre rest,
     Forall well_formed pre ->
     Forall (fun c => chunk_carrier c = None /\ is_iend c = false) pre ->
     extractCardFromPng (PNG_SIGNATURE ++ chunks_bytes pre ++ raw_bytes c ++ rest)
     = extractCardFromPng (PNG_SIGNATURE ++ chunks_bytes pre ++ rest))
  /\ (forall pre rest s opts,
      Forall well_formed pre -> Forall (fun c => is_iend c = false) pre ->
      embedCardIntoPng (PNG_SIGNATURE ++ chunks_bytes pre ++ raw_bytes c ++ rest) s opts
      = rmap (fun parts => PNG_SIGNATURE ++ concat (map copied_bytes (filter kept pre))
                           ++ copied_bytes c ++ concat parts)
             (embed_walk (insertion_set s opts) rest)).
Proof.
  assert (Hcar : chunk_carrier c = None).
  { unfold chunk_carrier. rewrite Htype, no_keyword_not_carrier by exact Hbad.
    destruct (list_eqb _ _); reflexivity. }
  assert (Hi : is_iend c = false) by (unfold is_iend; rewrite Htype; reflexivity).
  assert (Hk : kept c = true) by (unfold kept; rewrite Hcar; reflexivity).
  split.
  - intros pre rest Hpre Hplain.
    rewrite !extract_after_signature, !extract_walk_prefix by assumption.
    rewrite extract_walk_chunk, Hcar, Hi by assumption. reflexivity.
  - intros pre rest s opts Hpre Hni.
    rewrite embed_after_signature, embed_walk_prefix by assumption.
    rewrite embed_walk_chunk, Hi, Hk by assumption.
    destruct (embed_walk (insertion_set s opts) rest) as [parts|e]; [|reflexivity].
    cbn [rmap]. rewrite !concat_app. cbn [concat app]. rewrite <- !app_assoc.
    reflexivity.
Qed.

(** A tEXt chunk "chara" without NUL, then IEND: not found. *)
Lemma keywordless_text_chunk_passed_over_witness :
  extractCardFromPng (PNG_SIGNATURE ++ chunks_bytes [IHDR_1x1]
                      ++ raw_bytes {| ck_type := str_tEXt; ck_data := str_chara;
                                      ck_crc := [0; 0; 0; 0] |}
                      ++ raw_bytes IEND_chunk)
  = extractCardFromPng (PNG_SIGNATURE ++ chunks_bytes [IHDR_1x1] ++ raw_bytes IEND_chunk).
Proof.
  apply (keywordless_text_chunk_passed_over
           {| ck_type := str_tEXt; ck_data := str_chara; ck_crc := [0; 0; 0; 0] |}).
  - repeat split; cbn; lia.
  - reflexivity.
  - left. cbn. intuition discriminate.
  - repeat constructor; cbn; lia.
  - repeat constructor.
Defined.

(** ** C3 and C4 — the leading U+FEFF is lost on the way back *)

(** C3: on the minimal PNG with chara only, the one-character string U+FEFF
    is embedded (as "77u/", the base64 of EF BB BF) but extracted as the
    empty string: [TextDecoder] drops a leading byte-order mark. *)
Theorem roundtrip_drops_leading_bom :
  match embedCardIntoPng minimal_png [65279] chara_only with
  | Ok out => extractCardFromPng out = Ok (Some {| keyword := Chara; jsonText := [] |})
  | Err _ => False
  end.
Proof. vm_compute. reflexivity. Qed.

(** C4: embedding "x", then U+FEFF followed by "x", into the minimal PNG
    (default options) extracts to "x": the first payload, not the second. *)
Theorem double_embed_extracts_first_payload :
  match embedCardIntoPng minimal_png [120] None with
  | Ok p1 =>
    match embedCardIntoPng p1 [65279; 120] None with
    | Ok p2 => extractCardFromPng p2 = Ok (Some {| keyword := Chara; jsonText := [120] |})
    | Err _ => False
    end
  | Err _ => False
  end.
Proof. vm_compute. reflexivity. Qed.

End Claims.

(* ================================================================== *)

Module ArithFacts.

Lemma lor_disjoint (h y k : Z) :
  0 <= k -> h mod 2 ^ k = 0 -> 0 <= y < 2 ^ k -> Z.lor h y = h + y.
Proof.
  intros Hk Hh Hy. rewrite <- Z.add_lor_land.
  enough (E : Z.land h y = 0) by (rewrite E; lia).
  apply Z.bits_inj'; intros i Hi. rewrite Z.land_spec, Z.bits_0.
  destruct (Z.ltb_spec i k).
  - rewrite (Z.div_mod h (2 ^ k)), Hh, Z.add_0_r by (apply Z.pow_nonzero; lia).
    rewrite Z.mul_comm, Z.mul_pow2_bits_low by lia. reflexivity.
  - rewrite (Z.testbit_eqb y i) by lia. rewrite (Z.div_small y (2 ^ i)).
    + apply andb_false_r.
    + split; [lia|]. apply Z.lt_le_trans with (2 ^ k); [lia|].
      apply Z.pow_le_mono_r; lia.
Qed.

Lemma land_low (x m k : Z) : 0 <= k -> m = 2 ^ k - 1 -> Z.land x m = x mod 2 ^ k.
Proof. intros Hk ->. rewrite <- Z.land_ones by exact Hk. unfold Z.ones. rewrite Z.shiftl_1_l. reflexivity. Qed.

End ArithFacts.

(* ================================================================== *)

Module Utf8Facts.
Import Enc Views ArithFacts.

Ltac zarith := Z.div_mod_to_equations; lia.

Ltac bool_true :=
  first [ apply Z.ltb_lt; zarith | apply Z.leb_le; zarith | apply Z.eqb_eq; zarith
        | unfold in_range; apply andb_true_iff; split; apply Z.leb_le; zarith ].
Ltac bool_false :=
  first [ apply Z.ltb_ge; zarith | apply Z.leb_gt; zarith | apply Z.eqb_neq; zarith
        | unfold in_range; apply andb_false_iff;
          first [left; apply Z.leb_gt; zarith | right; apply Z.leb_gt; zarith] ].
Ltac decide_ifs :=
  repeat match goal with
  | |- context [if ?b then _ else _] =>
    first [ let H := fresh in assert (H : b = true) by bool_true; rewrite H; cbv beta iota
          | let H := fresh in assert (H : b = false) by bool_false; rewrite H; cbv beta iota ]
  end.

Ltac masks :=
  repeat first
    [ rewrite (land_low _ 63 6) by lia | rewrite (land_low _ 31 5) by lia
    | rewrite (land_low _ 15 4) by lia | rewrite (land_low _ 7 3) by lia
    | rewrite (land_low _ 3 2) by lia | rewrite (land_low _ 255 8) by lia ].
Ltac shifts := rewrite ?Z.shiftl_mul_pow2, ?Z.shiftr_div_pow2 by lia.
Ltac lor_step :=
  match goal with
  | |- context [Z.lor ?h ?y] =>
    first [ rewrite (lor_disjoint h y 6) by zarith | rewrite (lor_disjoint h y 12) by zarith
          | rewrite (lor_disjoint h y 18) by zarith | rewrite (lor_disjoint h y 2) by zarith
          | rewrite (lor_disjoint h y 3) by zarith | rewrite (lor_disjoint h y 4) by zarith
          | rewrite (lor_disjoint h y 5) by zarith | rewrite (lor_disjoint h y 8) by zarith
          | rewrite (lor_disjoint h y 16) by zarith | rewrite (lor_disjoint h y 24) by zarith ]
  end.
Ltac bits_arith := masks; shifts; repeat lor_step.

Lemma utf8_cp_tokens (c : Z) (rest : list Z) :
  scalar_value c -> utf8_tokens (utf8_encode_cp c ++ rest) = Some c :: utf8_tokens rest.
Proof.
  intros Hc. unfold scalar_value in Hc. unfold utf8_encode_cp.
  replace ((55296 <=? c) && (c <=? 57343)) with false
    by (symmetry; apply andb_false_iff;
        destruct Hc; [left; apply Z.leb_gt | right; apply Z.leb_gt]; lia).
  cbv beta iota zeta.
  destruct (Z.ltb_spec c 128).
  { cbn [app utf8_tokens]. decide_ifs. reflexivity. }
  destruct (Z.ltb_spec c 2048); [|destruct (Z.ltb_spec c 65536)];
    bits_arith; cbn [app utf8_tokens]; decide_ifs.
  - do 2 f_equal. bits_arith. zarith.
  - destruct (Z.eqb_spec (224 + c / 2 ^ 12) 224); decide_ifs;
    destruct (Z.eqb_spec (224 + c / 2 ^ 12) 237); decide_ifs;
    do 2 f_equal; bits_arith; zarith.
  - destruct (Z.eqb_spec (240 + c / 2 ^ 18) 240); decide_ifs;
    destruct (Z.eqb_spec (240 + c / 2 ^ 18) 244); decide_ifs;
    do 2 f_equal; bits_arith; zarith.
Qed.

End Utf8Facts.

(* ================================================================== *)

Module CodecFacts.
Import Enc Views ArithFacts Utf8Facts.

Lemma utf8_encode_cons (c : Z) (s : list Z) :
  utf8_encode (c :: s) = utf8_encode_cp c ++ utf8_encode s.
Proof. reflexivity. Qed.

Lemma utf8_tokens_encode (s : list Z) :
  Forall scalar_value s -> utf8_tokens (utf8_encode s) = map Some s.
Proof.
  induction s as [|c s IH]; intros H; [reflexivity|].
  inversion H; subst. rewrite utf8_encode_cons, utf8_cp_tokens by assumption.
  cbn [map]. f_equal. apply IH. assumption.
Qed.

Lemma all_tokens_some (s : list Z) : all_tokens (map Some s) = Some s.
Proof. induction s as [|c s IH]; [reflexivity|]. cbn. rewrite IH. reflexivity. Qed.

Lemma utf8_fatal_encode (s : list Z) :
  Forall scalar_value s -> utf8_decode_fatal (utf8_encode s) = Some (strip_bom s).
Proof.
  intros H. unfold utf8_decode_fatal. rewrite utf8_tokens_encode, all_tokens_some by exact H.
  reflexivity.
Qed.

Lemma utf8_lenient_encode (s : list Z) :
  Forall scalar_value s -> utf8_decode (utf8_encode s) = strip_bom s.
Proof.
  intros H. unfold utf8_decode. rewrite utf8_tokens_encode by exact H.
  rewrite map_map, map_id. reflexivity.
Qed.

Lemma utf8_encode_cp_bytes (c : Z) :
  0 <= c < 1114112 -> Forall (fun b => 0 <= b < 256) (utf8_encode_cp c).
Proof.
  intros Hc. unfold utf8_encode_cp. cbv zeta.
  set (c1 := if (55296 <=? c) && (c <=? 57343) then 65533 else c).
  assert (H1 : 0 <= c1 < 1114112) by (subst c1; destruct (_ && _); lia).
  clearbody c1.
  destruct (Z.ltb_spec c1 128); [repeat constructor; lia|].
  destruct (Z.ltb_spec c1 2048); [|destruct (Z.ltb_spec c1 65536)];
    bits_arith; repeat constructor; zarith.
Qed.

Lemma utf8_encode_bytes (s : list Z) :
  Forall (fun c => 0 <= c < 1114112) s -> Forall (fun b => 0 <= b < 256) (utf8_encode s).
Proof.
  induction s as [|c s IH]; intros H; [constructor|].
  inversion H; subst. rewrite utf8_encode_cons. apply Forall_app. split.
  - apply utf8_encode_cp_bytes. assumption.
  - apply IH. assumption.
Qed.

Lemma utf8_encode_cp_length (c : Z) : (length (utf8_encode_cp c) <= 4)%nat.
Proof.
  unfold utf8_encode_cp. cbv zeta.
  repeat match goal with |- context [if ?b then _ else _] => destruct b end; cbn; lia.
Qed.

Lemma utf8_encode_length (s : list Z) : (length (utf8_encode s) <= 4 * length s)%nat.
Proof.
  induction s as [|c s IH]; [cbn; lia|].
  rewrite utf8_encode_cons, length_app. pose proof (utf8_encode_cp_length c). cbn [length]. lia.
Qed.

Lemma utf8_encode_ascii (s : list Z) :
  Forall (fun c => 0 <= c < 128) s -> utf8_encode s = s.
Proof.
  induction s as [|c s IH]; intros H; [reflexivity|].
  inversion H; subst. rewrite utf8_encode_cons, IH by assumption.
  unfold utf8_encode_cp. cbv zeta. decide_ifs. reflexivity.
Qed.

Lemma decode_ascii_ascii (s : list Z) :
  Forall (fun c => 0 <= c < 128) s -> decode_ascii s = s.
Proof.
  induction s as [|c s IH]; intros H; [reflexivity|].
  inversion H; subst. unfold decode_ascii in *. cbn [map]. rewrite IH by assumption.
  unfold win1252_cp. decide_ifs. reflexivity.
Qed.

(** Base64. *)

Lemma b64_char_facts (z : Z) :
  0 <= z < 64 ->
  b64_value (b64_char z) = Some z /\ b64_char z <> 61 /\ 43 <= b64_char z < 128.
Proof.
  intros Hz. unfold b64_char.
  destruct (Z.ltb_spec z 26); [|destruct (Z.ltb_spec z 52);
    [|destruct (Z.ltb_spec z 62); [|destruct (Z.eqb_spec z 62)]]];
    unfold b64_value; decide_ifs; (split; [f_equal; lia | lia]).
Qed.

Lemma b64_strong_ind (P : list Z -> Prop) :
  P [] -> (forall a, P [a]) -> (forall a b, P [a; b]) ->
  (forall a b c r, P r -> P (a :: b :: c :: r)) -> forall bs, P bs.
Proof.
  intros H0 H1 H2 H3 bs.
  assert (H : forall n bs, (length bs <= n)%nat -> P bs).
  { induction n as [|n IH]; intros l Hl.
    - destruct l; [exact H0 | cbn in Hl; lia].
    - destruct l as [|a [|b [|c r]]]; auto.
      apply H3, IH. cbn in Hl. lia. }
  exact (H _ bs (le_n _)).
Qed.

Lemma btoa_shape (bs : list Z) : btoa bs = map b64_char (sextets bs) ++ b64_padding bs.
Proof.
  induction bs using b64_strong_ind; try reflexivity.
  cbn [btoa sextets b64_padding]. rewrite IHbs, map_app, <- app_assoc. reflexivity.
Qed.

Lemma sextets_range (bs : list Z) :
  Forall byte bs -> Forall (fun x => 0 <= x < 64) (sextets bs).
Proof.
  unfold byte. induction bs as [| | |a b c r IH] using b64_strong_ind; intros H;
    repeat match goal with H : Forall _ (_ :: _) |- _ => inversion H; subst; clear H end;
    cbn [sextets]; try apply Forall_app; try split; try (apply IH; assumption);
    bits_arith; repeat constructor; zarith.
Qed.

Lemma sextets_to_bytes_sextets (bs : list Z) :
  Forall byte bs -> sextets_to_bytes (sextets bs) = bs.
Proof.
  unfold byte. induction bs as [| | |a b c r IH] using b64_strong_ind; intros H;
    repeat match goal with H : Forall _ (_ :: _) |- _ => inversion H; subst; clear H end;
    cbn [sextets app sextets_to_bytes]; try rewrite IH by assumption; try reflexivity;
    bits_arith; repeat f_equal; zarith.
Qed.

Lemma sextets_shape (bs : list Z) :
  exists k, (b64_padding bs = [] /\ length (sextets bs) = (4 * k)%nat)
         \/ (b64_padding bs = [61] /\ length (sextets bs) = (4 * k + 3)%nat)
         \/ (b64_padding bs = [61; 61] /\ length (sextets bs) = (4 * k + 2)%nat).
Proof.
  induction bs as [| | |a b c r IH] using b64_strong_ind.
  - exists 0%nat. left. split; reflexivity.
  - exists 0%nat. right. right. split; reflexivity.
  - exists 0%nat. right. left. split; reflexivity.
  - destruct IH as [k Hk]. exists (S k). cbn [b64_padding sextets]. rewrite length_app.
    cbn [length].
    destruct Hk as [[-> H]|[[-> H]|[-> H]]]; [left|right; left|right; right];
      (split; [reflexivity|lia]).
Qed.

Lemma btoa_length (bs : list Z) :
  Z.of_nat (length (btoa bs)) = 4 * ((Z.of_nat (length bs) + 2) / 3).
Proof.
  induction bs as [| | |a b c r IH] using b64_strong_ind; try reflexivity.
  cbn [btoa]. rewrite length_app. cbn [length app].
  rewrite Nat2Z.inj_add, IH. zarith.
Qed.

Lemma cases64 (z : Z) : 0 <= z < 64 -> In z (map Z.of_nat (seq 0 64)).
Proof.
  intros Hz. apply in_map_iff. exists (Z.to_nat z). split; [lia|]. apply in_seq. lia.
Qed.

Lemma pad_match (z : Z) (t s : list Z) :
  0 <= z < 64 ->
  match b64_char z :: t with 61 :: 61 :: r => rev r | 61 :: r => rev r | _ => s end = s
  /\ match 61 :: b64_char z :: t with 61 :: 61 :: r => rev r | 61 :: r => rev r | _ => s end
     = rev (b64_char z :: t).
Proof.
  intros Hz. apply cases64 in Hz. cbn in Hz.
  repeat (destruct Hz as [<-|Hz]; [split; reflexivity|]). destruct Hz.
Qed.

Lemma rev_map_last (xs : list Z) :
  xs <> [] -> exists z t, rev (map b64_char xs) = b64_char z :: t /\ In z xs.
Proof.
  intros H. destruct (exists_last H) as [xs' [z ->]].
  exists z, (rev (map b64_char xs')). rewrite map_app, rev_app_distr. split; [reflexivity|].
  apply in_or_app. right. left. reflexivity.
Qed.

Lemma strip_padding_btoa (bs : list Z) :
  Forall byte bs -> strip_padding (btoa bs) = map b64_char (sextets bs).
Proof.
  intros Hb. pose proof (sextets_range bs Hb) as Hr. rewrite Forall_forall in Hr.
  rewrite btoa_shape. destruct (sextets_shape bs) as [k [[Hp Hl]|[[Hp Hl]|[Hp Hl]]]];
    rewrite Hp; unfold strip_padding; rewrite length_app, length_map, Hl; cbn [length].
  - rewrite app_nil_r. replace (Nat.modulo (4 * k + 0) 4) with 0%nat
      by (rewrite Nat.add_0_r, Nat.mul_comm, Nat.Div0.mod_mul; reflexivity).
    cbn [Nat.eqb]. destruct (sextets bs) as [|x xs] eqn:E; [reflexivity|].
    destruct (rev_map_last (x :: xs)) as [z [t [Hrev Hin]]]; [discriminate|].
    rewrite Hrev. apply pad_match. apply Hr. exact Hin.
  - replace (Nat.modulo (4 * k + 3 + 1) 4) with 0%nat
      by (replace (4 * k + 3 + 1)%nat with ((k + 1) * 4)%nat by lia;
          rewrite Nat.Div0.mod_mul; reflexivity).
    cbn [Nat.eqb]. rewrite rev_app_distr. cbn [rev app].
    destruct (sextets bs) as [|x xs] eqn:E; [cbn in Hl; lia|].
    destruct (rev_map_last (x :: xs)) as [z [t [Hrev Hin]]]; [discriminate|].
    rewrite Hrev. rewrite (proj2 (pad_match z t (map b64_char (x :: xs) ++ [61]) (Hr z Hin))). rewrite <- Hrev.
    apply rev_involutive.
  - replace (Nat.modulo (4 * k + 2 + 2) 4) with 0%nat
      by (replace (4 * k + 2 + 2)%nat with ((k + 1) * 4)%nat by lia;
          rewrite Nat.Div0.mod_mul; reflexivity).
    cbn [Nat.eqb]. rewrite rev_app_distr. cbn [rev app]. apply rev_involutive.
Qed.

Lemma filter_keep_all (f : Z -> bool) (l : list Z) :
  Forall (fun x => f x = true) l -> filter f l = l.
Proof.
  induction l as [|x l IH]; intros H; [reflexivity|].
  inversion H; subst. cbn. rewrite H2, IH by assumption. reflexivity.
Qed.

Lemma btoa_chars (bs : list Z) :
  Forall byte bs ->
  Forall (fun c => 43 <= c < 128 /\ is_ascii_whitespace c = false) (btoa bs).
Proof.
  intros Hb. pose proof (sextets_range bs Hb) as Hr.
  rewrite btoa_shape. apply Forall_app. split.
  - rewrite Forall_map. eapply Forall_impl; [|exact Hr]. intros z Hz.
    destruct (b64_char_facts z Hz) as [_ [_ H]]. split; [exact H|].
    unfold is_ascii_whitespace. rewrite !(proj2 (Z.eqb_neq _ _)) by lia. reflexivity.
  - destruct (sextets_shape bs) as [k [[Hp _]|[[Hp _]|[Hp _]]]]; rewrite Hp;
      repeat constructor; discriminate.
Qed.

Lemma all_values_chars (xs : list Z) :
  Forall (fun x => 0 <= x < 64) xs -> all_values (map b64_char xs) = Some xs.
Proof.
  induction xs as [|x xs IH]; intros H; [reflexivity|].
  inversion H; subst. cbn [map all_values].
  rewrite (proj1 (b64_char_facts x H2)), IH by assumption. reflexivity.
Qed.

Lemma atob_btoa (bs : list Z) : Forall byte bs -> atob (btoa bs) = Some bs.
Proof.
  intros Hb. unfold atob. cbv zeta.
  rewrite filter_keep_all.
  2:{ eapply Forall_impl; [|exact (btoa_chars bs Hb)]. intros c [_ ->]. reflexivity. }
  rewrite strip_padding_btoa by exact Hb. rewrite length_map.
  destruct (sextets_shape bs) as [k Hk].
  replace (Nat.eqb (Nat.modulo (length (sextets bs)) 4) 1) with false.
  2:{ symmetry. apply Nat.eqb_neq. destruct Hk as [[_ ->]|[[_ ->]|[_ ->]]].
      - rewrite Nat.mul_comm, Nat.Div0.mod_mul. discriminate.
      - replace (4 * k + 3)%nat with (3 + k * 4)%nat by lia. rewrite Nat.Div0.mod_add. discriminate.
      - replace (4 * k + 2)%nat with (2 + k * 4)%nat by lia. rewrite Nat.Div0.mod_add. discriminate. }
  rewrite all_values_chars by exact (sextets_range bs Hb).
  rewrite sextets_to_bytes_sextets by exact Hb. reflexivity.
Qed.

End CodecFacts.

(* ================================================================== *)

Module CardFacts.
Import Crc Enc Png Chunks Views ByteFacts WalkFacts ArithFacts Utf8Facts CodecFacts.

Lemma b64_utf8_roundtrip (s : list Z) :
  Forall scalar_value s -> base64DecodeUtf8 (base64EncodeUtf8 s) = Some (strip_bom s).
Proof.
  intros Hs. unfold base64DecodeUtf8, base64EncodeUtf8, bytesToBinaryString.
  rewrite atob_btoa.
  - apply utf8_fatal_encode. exact Hs.
  - apply utf8_encode_bytes. eapply Forall_impl; [|exact Hs].
    unfold scalar_value. intros c Hc. lia.
Qed.

Lemma base64EncodeUtf8_ascii (s : list Z) :
  Forall (fun c => 0 <= c < 1114112) s ->
  Forall (fun c => 0 <= c < 128) (base64EncodeUtf8 s).
Proof.
  intros Hs. unfold base64EncodeUtf8, bytesToBinaryString.
  eapply Forall_impl; [|exact (btoa_chars _ (utf8_encode_bytes s Hs))].
  intros c [Hc _]. lia.
Qed.

Lemma base64EncodeUtf8_length (s : list Z) :
  Z.of_nat (length (encodeAscii (base64EncodeUtf8 s))) <= 22 * (Z.of_nat (length s) + 1).
Proof.
  unfold encodeAscii, base64EncodeUtf8, bytesToBinaryString.
  pose proof (utf8_encode_length (btoa (utf8_encode s))) as H1.
  pose proof (btoa_length (utf8_encode s)) as H2.
  pose proof (utf8_encode_length s) as H3.
  apply Nat2Z.inj_le in H1, H3. rewrite Nat2Z.inj_mul in H1, H3.
  Z.div_mod_to_equations. lia.
Qed.

(** Copies. *)

Lemma refresh_wf (c : RawChunk) : well_formed c -> well_formed (refresh c).
Proof. intros [Ht [_ Hl]]. split; [exact Ht|]. split; [reflexivity|exact Hl]. Qed.

Lemma copied_chunks (l : list RawChunk) :
  concat (map copied_bytes l) = chunks_bytes (map refresh l).
Proof. induction l as [|c l IH]; [reflexivity|]. cbn. rewrite IH. reflexivity. Qed.

Lemma chunks_bytes_app (l1 l2 : list RawChunk) :
  chunks_bytes (l1 ++ l2) = chunks_bytes l1 ++ chunks_bytes l2.
Proof. apply flat_map_app. Qed.

(** Inserted chunks. *)

Lemma buildTextChunk_raw (k : CardKeyword) (b64 : list Z) :
  buildTextChunk k b64 = raw_bytes (built_chunk k b64).
Proof.
  unfold buildTextChunk, built_chunk, raw_bytes, concatBytes. cbn [concat].
  rewrite !app_nil_r. destruct k; reflexivity.
Qed.

Lemma insertion_set_chunks (s : list Z) (opts : option EmbedOpts) :
  concat (insertion_set s opts) = chunks_bytes (inserted_chunks s opts).
Proof.
  unfold insertion_set, inserted_chunks. rewrite chunks_bytes_app, concat_app.
  destruct (opt_writeChara opts), (opt_writeCcv3 opts); cbn [concat chunks_bytes flat_map];
    rewrite ?buildTextChunk_raw, ?app_nil_r; reflexivity.
Qed.

Lemma built_chunk_carrier (k : CardKeyword) (b64 : list Z) :
  chunk_carrier (built_chunk k b64) = Some (k, encodeAscii b64).
Proof. destruct k; reflexivity. Qed.

Lemma built_chunk_wf (k : CardKeyword) (b64 : list Z) :
  Z.of_nat (length (encodeAscii b64)) < 2 ^ 32 - 6 -> well_formed (built_chunk k b64).
Proof.
  intros H. split; [reflexivity|]. split; [reflexivity|].
  cbn [built_chunk ck_data]. rewrite length_app. cbn [length].
  destruct k; cbn [keyword_string str_chara str_ccv3 length]; lia.
Qed.

Lemma inserted_chunks_wf (s : list Z) (opts : option EmbedOpts) :
  Z.of_nat (length s) < 2 ^ 26 -> Forall well_formed (inserted_chunks s opts).
Proof.
  intros H. pose proof (base64EncodeUtf8_length s).
  unfold inserted_chunks. apply Forall_app.
  split; [destruct (opt_writeChara opts) | destruct (opt_writeCcv3 opts)];
    repeat constructor; apply built_chunk_wf; lia.
Qed.


(** The output of [embedCardIntoPng] on a PNG with an IEND chunk. *)
Lemma embed_png_shape (cs : list RawChunk) (iend : RawChunk) (tail s : list Z)
  (opts : option EmbedOpts) :
  Forall well_formed cs -> Forall (fun c => is_iend c = false) cs ->
  well_formed iend -> is_iend iend = true ->
  embedCardIntoPng (PNG_SIGNATURE ++ chunks_bytes cs ++ raw_bytes iend ++ tail) s opts
  = Ok (PNG_SIGNATURE ++ chunks_bytes (map refresh (filter kept cs)
                                       ++ inserted_chunks s opts ++ [refresh iend])).
Proof.
  intros Hwf Hni Hw Hi.
  rewrite embed_after_signature, embed_walk_prefix by assumption.
  rewrite embed_walk_chunk, Hi by assumption. cbn [rmap].
  rewrite !concat_app, !chunks_bytes_app, copied_chunks, insertion_set_chunks.
  cbn [concat chunks_bytes flat_map]. rewrite !app_nil_r. reflexivity.
Qed.

Lemma refreshed_plain (cs : list RawChunk) :
  Forall well_formed cs -> Forall (fun c => is_iend c = false) cs ->
  Forall well_formed (map refresh (filter kept cs))
  /\ Forall (fun c => chunk_carrier c = None /\ is_iend c = false) (map refresh (filter kept cs)).
Proof.
  intros Hwf Hni. rewrite !Forall_map, !Forall_forall in *. split.
  - intros c Hc. apply filter_In in Hc. apply refresh_wf, Hwf, Hc.
  - intros c Hc. apply filter_In in Hc. destruct Hc as [Hc Hk]. split.
    + unfold kept in Hk. change (chunk_carrier (refresh c)) with (chunk_carrier c).
      destruct (chunk_carrier c); [discriminate|reflexivity].
    + change (is_iend (refresh c)) with (is_iend c). apply Hni, Hc.
Qed.

Lemma extract_walk_short (tail : list Z) :
  (length tail < 12)%nat -> extract_walk tail = Ok None.
Proof.
  intros H. unfold extract_walk. destruct (length tail) as [|n] eqn:E; [reflexivity|].
  cbn [extract_loop]. unfold extract_step. rewrite E.
  replace (Z.of_nat (S n) <? 12) with true by (symmetry; apply Z.ltb_lt; lia).
  reflexivity.
Qed.

Lemma extract_walk_overrun (tail : list Z) :
  (12 <= length tail)%nat ->
  Z.of_nat (length tail) < 8 + readUint32BE tail + 4 -> extract_walk tail = Ok None.
Proof.
  intros H1 H2. unfold extract_walk. destruct (length tail) as [|n] eqn:E; [lia|].
  cbn [extract_loop]. unfold extract_step. cbv zeta. rewrite E.
  replace (Z.of_nat (S n) <? 12) with false by (symmetry; apply Z.ltb_ge; lia).
  replace (Z.of_nat (S n) <? 8 + readUint32BE tail + 4) with true
    by (symmetry; apply Z.ltb_lt; lia).
  reflexivity.
Qed.

Lemma extract_walk_iend (c : RawChunk) (r : list Z) :
  well_formed c -> is_iend c = true -> extract_walk (raw_bytes c ++ r) = Ok None.
Proof.
  intros Hw Hi. rewrite extract_walk_chunk by exact Hw.
  unfold chunk_carrier. rewrite iend_not_text, Hi by exact Hi. reflexivity.
Qed.

End CardFacts.

(* ================================================================== *)

Module JsonFacts.
Import Png SafeJson WalkFacts.

Lemma index_of_some (x : Z) (l : list Z) (n : nat) :
  index_of x l = Some n <->
  exists pre post, l = pre ++ x :: post /\ ~ In x pre /\ n = length pre.
Proof.
  revert n. induction l as [|y l IH]; intros n; cbn [index_of].
  - split; [discriminate|]. intros [pre [post [H _]]]. destruct pre; discriminate.
  - destruct (Z.eqb_spec y x) as [->|Hyx].
    + split.
      * intros H. injection H as <-. exists [], l. cbn. auto.
      * intros [pre [post [E [Hn ->]]]]. destruct pre as [|z pre]; [reflexivity|].
        injection E as -> _. exfalso. apply Hn. left. reflexivity.
    + destruct (index_of x l) as [m|] eqn:E.
      * split.
        -- intros H. injection H as <-. destruct (proj1 (IH m) eq_refl) as [pre [post [El [Hn Hm]]]].
           exists (y :: pre), post. subst. split; [reflexivity|]. split; [|reflexivity].
           intros [Hy|Hi]; [exact (Hyx Hy) | exact (Hn Hi)].
        -- intros [pre [post [El [Hn ->]]]]. destruct pre as [|z pre]; [injection El as ->; congruence|].
           injection El as -> El.
           assert (Hm : Some m = Some (length pre)).
           { apply IH. exists pre, post. split; [exact El|]. split; [|reflexivity].
             intros Hi. apply Hn. right. exact Hi. }
           injection Hm as ->. reflexivity.
      * split; [discriminate|]. intros [pre [post [El [Hn ->]]]].
        destruct pre as [|z pre]; [injection El as ->; congruence|].
        injection El as -> El.
        assert (Hm : @None nat = Some (length pre)).
        { apply IH. exists pre, post. split; [exact El|]. split; [|reflexivity].
          intros Hi. apply Hn. right. exact Hi. }
        discriminate.
Qed.

Lemma depth_step (op cl d ch : Z) :
  (if ch =? cl then (if ch =? op then d + 1 else d) - 1 else (if ch =? op then d + 1 else d))
  = d + nesting op cl [ch].
Proof. cbn [nesting]. destruct (ch =? op), (ch =? cl); lia. Qed.

Lemma nesting_cons (op cl ch : Z) (l : list Z) :
  nesting op cl (ch :: l) = nesting op cl [ch] + nesting op cl l.
Proof. cbn [nesting]. lia. Qed.

Lemma scan_none (op cl d : Z) (i : nat) (t : list Z) :
  scan_depth op cl d i t = None <->
  forall k, (0 < k <= length t)%nat -> d + nesting op cl (firstn k t) <> 0.
Proof.
  revert d i. induction t as [|ch r IH]; intros d i; cbn [scan_depth].
  - split; [intros _ k Hk; cbn in Hk; lia | reflexivity].
  - cbv zeta. rewrite depth_step. destruct (Z.eqb_spec (d + nesting op cl [ch]) 0) as [H0|H0].
    + split; [discriminate|]. intros H. exfalso. apply (H 1%nat); [cbn; lia|exact H0].
    + rewrite IH. split.
      * intros H [|k] Hk; [lia|]. destruct k as [|k]; [exact H0|].
        cbn [firstn]. rewrite nesting_cons.
        specialize (H (S k)). cbn [length] in Hk. rewrite Z.add_assoc. apply H. lia.
      * intros H k Hk. rewrite <- Z.add_assoc, <- nesting_cons.
        apply (H (S k)). cbn [length]. lia.
Qed.

Lemma scan_some (op cl d : Z) (i j : nat) (t : list Z) :
  scan_depth op cl d i t = Some j <->
  exists u v, t = u ++ v /\ u <> [] /\ j = (i + length u - 1)%nat
              /\ d + nesting op cl u = 0
              /\ forall k, (0 < k < length u)%nat -> d + nesting op cl (firstn k u) <> 0.
Proof.
  revert d i. induction t as [|ch r IH]; intros d i; cbn [scan_depth].
  - split; [discriminate|]. intros [u [v [E [Hu _]]]].
    destruct u; [congruence|discriminate].
  - cbv zeta. rewrite depth_step. destruct (Z.eqb_spec (d + nesting op cl [ch]) 0) as [H0|H0].
    + split.
      * intros H. injection H as <-. exists [ch], r. cbn [app length].
        split; [reflexivity|]. split; [discriminate|]. split; [lia|]. split; [exact H0|].
        intros k Hk. lia.
      * intros [u [v [E [Hu [-> [_ Hk]]]]]]. destruct u as [|c u]; [congruence|].
        injection E as <- E. destruct u as [|c' u]; [cbn; f_equal; lia|].
        exfalso. apply (Hk 1%nat); [cbn; lia|exact H0].
    + rewrite IH. split.
      * intros [u [v [E [Hu [Hj [Hz Hk]]]]]]. exists (ch :: u), v. subst r.
        split; [reflexivity|]. split; [discriminate|].
        destruct u as [|c u]; [congruence|]. cbn [length] in *. split; [lia|].
        split; [rewrite nesting_cons; lia|].
        intros [|k] Hk'; [lia|]. destruct k as [|k]; [exact H0|].
        cbn [firstn]. rewrite nesting_cons, Z.add_assoc. apply (Hk (S k)). cbn [length]. lia.
      * intros [u [v [E [Hu [Hj [Hz Hk]]]]]]. destruct u as [|c u]; [congruence|].
        injection E as <- E. destruct u as [|c' u]; [contradiction|].
        exists (c' :: u), v. split; [exact E|]. split; [discriminate|].
        cbn [length] in *. split; [lia|]. split; [rewrite nesting_cons in Hz; lia|].
        intros k Hk'. rewrite <- Z.add_assoc, <- nesting_cons.
        apply (Hk (S k)). cbn [length]. lia.
Qed.

Lemma nesting_app (op cl : Z) (l1 l2 : list Z) :
  nesting op cl (l1 ++ l2) = nesting op cl l1 + nesting op cl l2.
Proof. induction l1 as [|c l1 IH]; [reflexivity|]. cbn [app nesting]. rewrite IH. lia. Qed.

Lemma firstn_succ (k : nat) (u : list Z) :
  (k < length u)%nat -> firstn (S k) u = firstn k u ++ [nth k u 0].
Proof.
  revert u. induction k as [|k IH]; intros [|c u] H; cbn in H; try lia; [reflexivity|].
  change (firstn (S (S k)) (c :: u)) with (c :: firstn (S k) u).
  change (firstn (S k) (c :: u)) with (c :: firstn k u).
  change (nth (S k) (c :: u) 0) with (nth k u 0).
  rewrite IH by lia. reflexivity.
Qed.

Lemma nesting_one_lower (op cl c : Z) : -1 <= nesting op cl [c].
Proof. cbn. destruct (c =? op), (c =? cl); lia. Qed.

(** Starting at an opener, a depth that is never 0 stays positive. *)
Lemma positive_of_nonzero (op cl : Z) (u : list Z) (m : nat) :
  op <> cl -> hd_error u = Some op -> (m <= length u)%nat ->
  (forall k, (0 < k <= m)%nat -> nesting op cl (firstn k u) <> 0) ->
  forall k, (0 < k <= m)%nat -> 0 < nesting op cl (firstn k u).
Proof.
  intros Hoc Hhd Hm Hnz k Hk. induction k as [|k IH]; [lia|].
  destruct k as [|k].
  - destruct u as [|c u]; [discriminate|]. injection Hhd as ->. cbn.
    rewrite Z.eqb_refl. destruct (Z.eqb_spec op cl); [contradiction|]. lia.
  - rewrite firstn_succ by lia. rewrite nesting_app.
    pose proof (nesting_one_lower op cl (nth (S k) u 0)).
    specialize (IH ltac:(lia)). specialize (Hnz (S (S k)) Hk).
    rewrite firstn_succ, nesting_app in Hnz by lia. lia.
Qed.

Lemma slice_prefix (pre u v : list Z) :
  u <> [] ->
  slice (Z.of_nat (length pre)) (Z.of_nat (length pre + length u - 1) + 1) (pre ++ u ++ v) = u.
Proof.
  intros Hu. unfold slice. rewrite Nat2Z.id.
  replace (Z.to_nat (Z.of_nat (length pre + length u - 1) + 1) - length pre)%nat
    with (length u) by (destruct u; [congruence|cbn [length]; lia]).
  rewrite skipn_prefix by reflexivity. apply firstn_prefix. reflexivity.
Qed.

Lemma extract_delimited_some (op cl : Z) (text r : list Z) :
  op <> cl ->
  extract_first_delimited op cl text = Some r <->
  exists pre rest, text = pre ++ r ++ rest /\ ~ In op pre /\ hd_error r = Some op
                   /\ nesting op cl r = 0
                   /\ forall k, (0 < k < length r)%nat -> 0 < nesting op cl (firstn k r).
Proof.
  intros Hoc. unfold extract_first_delimited. split.
  - destruct (index_of op text) as [start|] eqn:Ei; [|discriminate].
    destruct (proj1 (index_of_some _ _ _) Ei) as [pre [post [Et [Hn ->]]]].
    rewrite Et, skipn_prefix by reflexivity.
    destruct (scan_depth op cl 0 (length pre) (op :: post)) as [j|] eqn:Es; [|discriminate].
    intros H. injection H as <-.
    destruct (proj1 (scan_some _ _ _ _ _ _) Es) as [u [v [Eu [Hu [-> [Hz Hk]]]]]].
    rewrite Eu, slice_prefix by exact Hu.
    assert (Hhd : hd_error u = Some op) by (destruct u; [congruence|injection Eu as -> _; reflexivity]).
    exists pre, v. split; [reflexivity|]. split; [exact Hn|]. split; [exact Hhd|].
    split; [lia|].
    intros k Hk'. apply (positive_of_nonzero op cl u (length u - 1)); auto; try lia.
    intros k' Hk''. specialize (Hk k' ltac:(lia)). lia.
  - intros [pre [rest [Et [Hn [Hhd [Hz Hpos]]]]]].
    destruct r as [|c r']; [discriminate|]. injection Hhd as ->.
    assert (Ei : index_of op text = Some (length pre)).
    { apply index_of_some. exists pre, (r' ++ rest). auto. }
    rewrite Ei, Et, skipn_prefix by reflexivity.
    assert (Es : scan_depth op cl 0 (length pre) ((op :: r') ++ rest)
                 = Some (length pre + length (op :: r') - 1)%nat).
    { apply scan_some. exists (op :: r'), rest. split; [reflexivity|]. split; [discriminate|].
      split; [reflexivity|]. split; [lia|]. intros k Hk. specialize (Hpos k Hk). lia. }
    rewrite Es, slice_prefix by discriminate. reflexivity.
Qed.

Lemma extract_delimited_none (op cl : Z) (text : list Z) :
  op <> cl ->
  extract_first_delimited op cl text = None <->
  forall pre rest, text = pre ++ op :: rest -> ~ In op pre ->
  forall k, (0 < k <= S (length rest))%nat -> 0 < nesting op cl (firstn k (op :: rest)).
Proof.
  intros Hoc. unfold extract_first_delimited. split.
  - intros H pre rest Et Hn.
    assert (Ei : index_of op text = Some (length pre)).
    { apply index_of_some. exists pre, rest. auto. }
    rewrite Ei, Et, skipn_prefix in H by reflexivity.
    destruct (scan_depth op cl 0 (length pre) (op :: rest)) as [j|] eqn:Es; [discriminate|].
    pose proof (proj1 (scan_none _ _ _ _ _) Es) as Hnz.
    apply (positive_of_nonzero op cl (op :: rest) (S (length rest))); auto.
  - intros H. destruct (index_of op text) as [start|] eqn:Ei; [|reflexivity].
    destruct (proj1 (index_of_some _ _ _) Ei) as [pre [post [Et [Hn ->]]]].
    specialize (H pre post Et Hn).
    rewrite Et, skipn_prefix by reflexivity.
    destruct (scan_depth op cl 0 (length pre) (op :: post)) as [j|] eqn:Es; [|reflexivity].
    exfalso.
    destruct (proj1 (scan_some _ _ _ _ _ _) Es) as [u [v [Eu [Hu [_ [Hz _]]]]]].
    assert (Hl : (0 < length u <= S (length post))%nat).
    { destruct u; [congruence|]. cbn [length]. change (S (length post)) with (length (op :: post)).
      rewrite Eu, length_app. cbn [length]. lia. }
    specialize (H (length u) Hl). rewrite Eu, firstn_prefix in H by reflexivity. lia.
Qed.

Lemma skipn_after (x : Z) (pre post : list Z) :
  skipn (S (length pre)) (pre ++ x :: post) = post.
Proof. induction pre as [|y pre IH]; [reflexivity|exact IH]. Qed.

Lemma parse_keyword_spec (d kw tb : list Z) :
  parseTextChunkKeyword d = Some (kw, tb) <->
  exists k, d = k ++ 0 :: tb /\ k <> [] /\ ~ In 0 k /\ kw = Enc.utf8_decode k.
Proof.
  unfold parseTextChunkKeyword. split.
  - destruct (index_of 0 d) as [[|n]|] eqn:Ei; try discriminate.
    destruct (proj1 (index_of_some _ _ _) Ei) as [pre [post [Ed [Hn Hl]]]].
    intros H. rewrite Hl, Ed, firstn_prefix, skipn_after in H by reflexivity.
    injection H as <- <-.
    exists pre. split; [exact Ed|]. split; [|split; [exact Hn|reflexivity]].
    intros ->. cbn in Hl. discriminate.
  - intros [k [-> [Hk [Hn ->]]]].
    assert (Ei : index_of 0 (k ++ 0 :: tb) = Some (length k)).
    { apply index_of_some. exists k, tb. auto. }
    rewrite Ei. destruct k as [|c k]; [congruence|].
    change (length (c :: k)) with (S (length k)). cbv iota beta.
    change (S (length k)) with (length (c :: k)).
    rewrite firstn_prefix, skipn_after by reflexivity. reflexivity.
Qed.

End JsonFacts.

(* ================================================================== *)

Module Extras.
Import Crc Enc Png Chunks Views SafeJson ByteFacts WalkFacts ArithFacts Utf8Facts CodecFacts
  CardFacts JsonFacts.

Lemma chunks_bytes_cons (c : RawChunk) (l : list RawChunk) :
  chunks_bytes (c :: l) = raw_bytes c ++ chunks_bytes l.
Proof. reflexivity. Qed.




(** X1: embedding a card of fewer than 2^26 Unicode scalar values into a PNG made of well-formed chunks
    and an IEND chunk succeeds, and extracting from the result gives back the card under
    keyword chara (ccv3 when only ccv3 is written), its text without a leading U+FEFF. *)
Theorem extract_embed_roundtrip (cs : list RawChunk) (iend : RawChunk) (tail s : list Z)
  (opts : option EmbedOpts)
  (Hwf : Forall well_formed cs) (Hni : Forall (fun c => is_iend c = false) cs)
  (Hiw : well_formed iend) (Hie : is_iend iend = true)
  (Hs : Forall scalar_value s) (Hlen : Z.of_nat (length s) < 2 ^ 26)
  (Hon : opt_writeChara opts = true \/ opt_writeCcv3 opts = true) :
  exists out,
    embedCardIntoPng (PNG_SIGNATURE ++ chunks_bytes cs ++ raw_bytes iend ++ tail) s opts = Ok out
    /\ extractCardFromPng out
       = Ok (Some {| keyword := if opt_writeChara opts then Chara else Ccv3;
                     jsonText := strip_bom s |}).
Proof.
  eexists. split; [apply embed_png_shape; assumption|].
  destruct (refreshed_plain cs Hwf Hni) as [Hw' Hp'].
  assert (Hdec : forall k, decode_carrier k (encodeAscii (base64EncodeUtf8 s))
                           = Ok (Some {| keyword := k; jsonText := strip_bom s |})).
  { intros k. assert (Ha : Forall (fun c => 0 <= c < 128) (base64EncodeUtf8 s)).
    { apply base64EncodeUtf8_ascii. eapply Forall_impl; [|exact Hs].
      unfold scalar_value. intros c Hc. lia. }
    unfold decode_carrier, encodeAscii.
    rewrite utf8_encode_ascii, decode_ascii_ascii, b64_utf8_roundtrip by assumption.
    reflexivity. }
  pose proof (inserted_chunks_wf s opts Hlen) as Hiw'.
  unfold inserted_chunks in *.
  destruct (opt_writeChara opts) eqn:Hc; [|destruct Hon as [Hon|Hon]; [discriminate|rewrite Hon in *]];
    cbn [app] in *; rewrite chunks_bytes_app, chunks_bytes_cons;
    (erewrite extract_at_first_carrier;
      [ apply Hdec | exact Hw' | exact Hp'
      | inversion Hiw'; assumption | apply built_chunk_carrier ]).
Qed.

Lemma extract_embed_roundtrip_witness :
  exists out,
    embedCardIntoPng (PNG_SIGNATURE ++ chunks_bytes [IHDR_1x1; IDAT_1x1] ++ raw_bytes IEND_chunk ++ [])
      sample_json None = Ok out
    /\ extractCardFromPng out
       = Ok (Some {| keyword := if opt_writeChara None then Chara else Ccv3;
                     jsonText := strip_bom sample_json |}).
Proof.
  apply (extract_embed_roundtrip [IHDR_1x1; IDAT_1x1] IEND_chunk [] sample_json None).
  - repeat constructor; cbn; lia.
  - repeat constructor.
  - repeat split; cbn; lia.
  - reflexivity.
  - repeat constructor; unfold scalar_value; lia.
  - cbn; lia.
  - left; reflexivity.
Defined.

(** X2: embedding with both writeChara and writeCcv3 false succeeds and leaves a PNG
    from which nothing is extracted: every card chunk is dropped and none is added. *)
Theorem embed_no_writes_strips_card (cs : list RawChunk) (iend : RawChunk) (tail s : list Z)
  (opts : option EmbedOpts)
  (Hwf : Forall well_formed cs) (Hni : Forall (fun c => is_iend c = false) cs)
  (Hiw : well_formed iend) (Hie : is_iend iend = true)
  (Hch : opt_writeChara opts = false) (Hcc : opt_writeCcv3 opts = false) :
  exists out,
    embedCardIntoPng (PNG_SIGNATURE ++ chunks_bytes cs ++ raw_bytes iend ++ tail) s opts = Ok out
    /\ extractCardFromPng out = Ok None.
Proof.
  eexists. split; [apply embed_png_shape; assumption|].
  destruct (refreshed_plain cs Hwf Hni) as [Hw' Hp'].
  unfold inserted_chunks. rewrite Hch, Hcc. cbn [app].
  rewrite chunks_bytes_app, chunks_bytes_cons, extract_after_signature, extract_walk_prefix
    by assumption.
  apply extract_walk_iend; [apply refresh_wf, Hiw | exact Hie].
Qed.

Lemma embed_no_writes_strips_card_witness :
  exists out,
    embedCardIntoPng (PNG_SIGNATURE ++ chunks_bytes [IHDR_1x1; text_chunk str_chara [65; 65; 61; 61]]
                      ++ raw_bytes IEND_chunk ++ [])
      sample_json (Some {| writeCcv3 := Some false; writeChara := Some false |}) = Ok out
    /\ extractCardFromPng out = Ok None.
Proof.
  apply (embed_no_writes_strips_card [IHDR_1x1; text_chunk str_chara [65; 65; 61; 61]]
           IEND_chunk [] sample_json (Some {| writeCcv3 := Some false; writeChara := Some false |})).
  - repeat constructor; cbn; lia.
  - repeat constructor.
  - repeat split; cbn; lia.
  - reflexivity.
  - reflexivity.
  - reflexivity.
Defined.



(** X4: when no chunk before the end of the walk carries a card, extraction returns no
    card without error: at IEND, at a tail shorter than a chunk header, and at a chunk
    whose declared length overruns the buffer. *)
Theorem extract_not_found (cs : list RawChunk)
  (Hwf : Forall well_formed cs)
  (Hplain : Forall (fun c => chunk_carrier c = None /\ is_iend c = false) cs) :
  (forall iend tail, well_formed iend -> is_iend iend = true ->
     extractCardFromPng (PNG_SIGNATURE ++ chunks_bytes cs ++ raw_bytes iend ++ tail) = Ok None)
  /\ (forall tail, (length tail < 12)%nat ->
      extractCardFromPng (PNG_SIGNATURE ++ chunks_bytes cs ++ tail) = Ok None)
  /\ (forall tail, (12 <= length tail)%nat ->
      Z.of_nat (length tail) < 8 + readUint32BE tail + 4 ->
      extractCardFromPng (PNG_SIGNATURE ++ chunks_bytes cs ++ tail) = Ok None).
Proof.
  split; [|split].
  - intros iend tail Hw Hi. rewrite extract_after_signature, extract_walk_prefix by assumption.
    apply extract_walk_iend; assumption.
  - intros tail Ht. rewrite extract_after_signature, extract_walk_prefix by assumption.
    apply extract_walk_short, Ht.
  - intros tail H1 H2. rewrite extract_after_signature, extract_walk_prefix by assumption.
    apply extract_walk_overrun; assumption.
Qed.

(** A chara chunk after IEND is not read. *)
Lemma extract_not_found_witness :
  extractCardFromPng (PNG_SIGNATURE ++ chunks_bytes [IHDR_1x1; IDAT_1x1] ++ raw_bytes IEND_chunk
                      ++ raw_bytes (text_chunk str_chara (base64EncodeUtf8 sample_json)))
  = Ok None.
Proof.
  apply (proj1 (extract_not_found [IHDR_1x1; IDAT_1x1]
                  ltac:(repeat constructor; cbn; lia) ltac:(repeat constructor))).
  - repeat split; cbn; lia.
  - reflexivity.
Defined.


(** X5: writing back the big-endian value read from four bytes (as the callers read it,
    followed by >>> 0) gives those bytes, and reading a written value gives that value
    modulo 2^32. *)
Theorem uint32_field_roundtrip (a b c d n : Z) (r : list Z)
  (Ha : 0 <= a < 256) (Hb : 0 <= b < 256) (Hc : 0 <= c < 256) (Hd : 0 <= d < 256) :
  writeUint32BE (readUint32BE ([a; b; c; d] ++ r)) = [a; b; c; d]
  /\ readUint32BE (writeUint32BE n ++ r) = u32 n.
Proof.
  split; [|apply readUint32BE_write].
  assert (Hv : readUint32BE ([a; b; c; d] ++ r) = a * 2 ^ 24 + b * 2 ^ 16 + c * 2 ^ 8 + d).
  { unfold readUint32BE, at_. cbn [app nth]. bits_arith. apply u32_small. lia. }
  unfold writeUint32BE. rewrite Hv, u32_small by lia. bits_arith. repeat f_equal; zarith.
Qed.

Lemma uint32_field_roundtrip_witness :
  writeUint32BE (readUint32BE ([0; 0; 1; 13] ++ [73; 72; 68; 82])) = [0; 0; 1; 13]
  /\ readUint32BE (writeUint32BE 4294967297 ++ [73; 72; 68; 82]) = u32 4294967297.
Proof. apply uint32_field_roundtrip; lia. Defined.

(** X6: for code points in [0, 0x110000), the base64 payload base64EncodeUtf8 returns is
    ASCII, so encodeAscii writes it into the chunk byte for byte. *)
Theorem base64EncodeUtf8_ascii_payload (s : list Z)
  (Hs : Forall (fun c => 0 <= c < 1114112) s) :
  Forall (fun c => 0 <= c < 128) (base64EncodeUtf8 s)
  /\ encodeAscii (base64EncodeUtf8 s) = base64EncodeUtf8 s.
Proof.
  pose proof (base64EncodeUtf8_ascii s Hs) as Ha.
  split; [exact Ha|]. unfold encodeAscii. apply utf8_encode_ascii, Ha.
Qed.

(** A lone surrogate is in range too. *)
Lemma base64EncodeUtf8_ascii_payload_witness :
  Forall (fun c => 0 <= c < 128) (base64EncodeUtf8 [233; 8364; 128512; 55296])
  /\ encodeAscii (base64EncodeUtf8 [233; 8364; 128512; 55296])
     = base64EncodeUtf8 [233; 8364; 128512; 55296].
Proof. apply base64EncodeUtf8_ascii_payload. repeat constructor; lia. Defined.

(** X7: base64EncodeUtf8 returns 4 characters per started group of 3 bytes of the UTF-8
    encoding of its input. *)
Theorem base64EncodeUtf8_length_exact (s : list Z) :
  Z.of_nat (length (base64EncodeUtf8 s)) = 4 * ((Z.of_nat (length (utf8_encode s)) + 2) / 3).
Proof. unfold base64EncodeUtf8, bytesToBinaryString. apply btoa_length. Qed.

(** X8: base64DecodeUtf8 of base64EncodeUtf8 of Unicode scalar values gives them back
    without a leading U+FEFF. *)
Theorem base64_utf8_roundtrip (s : list Z) (Hs : Forall scalar_value s) :
  base64DecodeUtf8 (base64EncodeUtf8 s) = Some (strip_bom s).
Proof. apply b64_utf8_roundtrip. exact Hs. Qed.

Lemma base64_utf8_roundtrip_witness :
  base64DecodeUtf8 (base64EncodeUtf8 [233; 8364; 128512]) = Some (strip_bom [233; 8364; 128512]).
Proof. apply base64_utf8_roundtrip. repeat constructor; unfold scalar_value; lia. Defined.

(** X9: parseTextChunkKeyword splits chunk data at its first zero byte when the keyword
    before it is not empty: the keyword is the UTF-8 decoding of the bytes before, the text
    the bytes after. *)
Theorem parseTextChunkKeyword_spec (chunkData keyword textBytes : list Z) :
  parseTextChunkKeyword chunkData = Some (keyword, textBytes) <->
  exists k, chunkData = k ++ 0 :: textBytes /\ k <> [] /\ ~ In 0 k /\ keyword = utf8_decode k.
Proof. apply parse_keyword_spec. Qed.

(** X10: extractFirstJsonObject returns the substring from the first '{' to the first
    position where the '{'/'}' balance is back to zero, and nothing when there is no '{'
    or the balance never returns to zero. *)
Theorem extractFirstJsonObject_spec (text : list Z) :
  (forall r, extractFirstJsonObject text = Some r <->
     exists pre rest, text = pre ++ r ++ rest /\ ~ In 123 pre /\ hd_error r = Some 123
                      /\ nesting 123 125 r = 0
                      /\ forall k, (0 < k < length r)%nat -> 0 < nesting 123 125 (firstn k r))
  /\ (extractFirstJsonObject text = None <->
      forall pre rest, text = pre ++ 123 :: rest -> ~ In 123 pre ->
      forall k, (0 < k <= S (length rest))%nat -> 0 < nesting 123 125 (firstn k (123 :: rest))).
Proof.
  split; [intros r; apply extract_delimited_some | apply extract_delimited_none]; discriminate.
Qed.

(** X11: extractFirstJsonArray returns the substring from the first '[' to the first
    position where the '['/']' balance is back to zero, and nothing when there is no '['
    or the balance never returns to zero. *)
Theorem extractFirstJsonArray_spec (text : list Z) :
  (forall r, extractFirstJsonArray text = Some r <->
     exists pre rest, text = pre ++ r ++ rest /\ ~ In 91 pre /\ hd_error r = Some 91
                      /\ nesting 91 93 r = 0
                      /\ forall k, (0 < k < length r)%nat -> 0 < nesting 91 93 (firstn k r))
  /\ (extractFirstJsonArray text = None <->
      forall pre rest, text = pre ++ 91 :: rest -> ~ In 91 pre ->
      forall k, (0 < k <= S (length rest))%nat -> 0 < nesting 91 93 (firstn k (91 :: rest))).
Proof.
  split; [intros r; apply extract_delimited_some | apply extract_delimited_none]; discriminate.
Qed.

End Extras.
